(** * Map Machine: the compositing pipeline of [map_machine/mapper.py]

    A shallow embedding of [Map.draw], [Map.draw_buildings],
    [Map.draw_simple_roads] and [Map.draw_credits], of the reading of the
    coordinates in [render_map], and of the grid of the test images
    ([element/test_elements.py]).

    The mapper only orchestrates: it filters and sorts the entities a
    [Constructor] holds and then calls drawing methods in a fixed sequence,
    every one of which appends to the same [svg] document.  The embedding
    therefore returns, for each method, the list of calls it makes
    ([Call]), in order; the document is obtained by performing the calls one
    after the other ([document]).

    Python floats are modelled by rationals ([Q]): the mapper only compares
    them and multiplies them by the scale, and every finite float is a
    rational number.  NaN and infinities are not modelled. *)

From Stdlib Require Import List Ascii String QArith Bool Arith ZArith Lia Lqa.
From Stdlib Require Import Permutation Sorted.
Import ListNotations.

Close Scope Q_scope.

Set Implicit Arguments.

(** ** Python built-ins used by the mapper *)

(** [x < y] on floats. *)
Definition Qltb (x y : Q) : bool :=
  match (x ?= y)%Q with
  | Lt => true
  | _ => false
  end.

(** [x >= y] on floats. *)
Definition Qgeb (x y : Q) : bool := Qle_bool y x.

(** A two-element [np.ndarray] (a planar point, a size or a shift). *)
Definition Vec : Type := (Q * Q)%type.

Definition Vec_sub (a b : Vec) : Vec :=
  ((fst a - fst b)%Q, (snd a - snd b)%Q).

Definition Q_eq_dec (x y : Q) : {x = y} + {x <> y}.
Proof.
  decide equality; [apply Pos.eq_dec | apply Z.eq_dec].
Defined.

Definition Vec_eq_dec (a b : Vec) : {a = b} + {a <> b}.
Proof.
  decide equality; apply Q_eq_dec.
Defined.

Section Builtins.

Context {A : Type}.

(** [sorted]: Python's sort is stable and only asks [y < x].  For a strict
    weak order every stable sort returns the same list, so the sort is
    written as the insertion sort below. *)
Variable lt : A -> A -> bool.

Fixpoint insert (x : A) (l : list A) : list A :=
  match l with
  | [] => [x]
  | y :: l' => if lt y x then y :: insert x l' else x :: y :: l'
  end.

Definition sorted (l : list A) : list A := fold_right insert [] l.

End Builtins.

(** [sorted(l, key=key)] with a float key. *)
Definition sorted_key {A : Type} (key : A -> Q) (l : list A) : list A :=
  sorted (fun a b => Qltb (key a) (key b)) l.

Section Dict.

(** A [dict] keeps its keys in insertion order; assigning to a key that is
    already present keeps the stored key and its position and replaces the
    value. *)
Context {K V : Type}.
Variable K_eq_dec : forall a b : K, {a = b} + {a <> b}.

Fixpoint dict_set (k : K) (v : V) (d : list (K * V)) : list (K * V) :=
  match d with
  | [] => [(k, v)]
  | (k', v') :: d' =>
      if K_eq_dec k' k then (k', v) :: d' else (k', v') :: dict_set k v d'
  end.

Fixpoint dict_get (k : K) (d : list (K * V)) : option V :=
  match d with
  | [] => None
  | (k', v') :: d' => if K_eq_dec k' k then Some v' else dict_get k d'
  end.

Definition dict_keys (d : list (K * V)) : list K := map fst d.

Definition dict_contains (k : K) (d : list (K * V)) : bool :=
  match dict_get k d with
  | Some _ => true
  | None => false
  end.

End Dict.

(** ** Data model: what the mapper reads of each collaborator *)

Definition Color : Type := string.

(** [LineStyle]: [style] is the dictionary of SVG attributes. *)
Record LineStyle := {
  LineStyle_style : list (string * string);
  LineStyle_priority : Q
}.

(** [Flinger]: the projector.  [get_scale] takes optional coordinates. *)
Record Flinger := {
  Flinger_size : Vec;
  Flinger_get_scale : option Vec -> Q;
  Flinger_fling : Vec -> Vec
}.

(** [StyledFigure]: [get_path] is the figure's own method, kept as a field. *)
Record StyledFigure := {
  StyledFigure_line_style : LineStyle;
  StyledFigure_get_path : Flinger -> string
}.

(** Modelled from the spec: [Segment] (map_machine.geometry.vector) is missing
    from src.  A wall segment is a key of the [walls] dictionary; the spec
    says shared wall segments are identified by geometric identity, so two
    segments are the same key when their end points are equal. *)
Record Segment := {
  Segment_point_1 : Vec;
  Segment_point_2 : Vec
}.

Definition Segment_eq_dec (a b : Segment) : {a = b} + {a <> b}.
Proof.
  decide equality; apply Vec_eq_dec.
Defined.

Record Building := {
  Building_id : nat;
  Building_parts : list Segment;
  Building_height : Q;
  Building_min_height : Q
}.

Record Point := {
  Point_id : nat;
  Point_priority : Q
}.

(** Entities the mapper only hands on to their own drawing method. *)
Record Tree := { Tree_id : nat }.
Record Crater := { Crater_id : nat }.
Record DirectionSector := { DirectionSector_id : nat }.
Record Roads := { Roads_id : nat }.

Record OSMNode := {
  OSMNode_id : Z;
  OSMNode_coordinates : Vec
}.

Definition OSMNode_eq_dec (a b : OSMNode) : {a = b} + {a <> b}.
Proof.
  decide equality; [apply Vec_eq_dec | apply Z.eq_dec].
Defined.

Record Road := {
  Road_nodes : list OSMNode;
  Road_lanes : Q
}.

(** Modelled from the spec: [RoadPart] (map_machine.feature.road) is missing
    from src.  A RoadPart is a directed half-edge carrying width and scale.
    It is built from two [np.ndarray] points and stored in a [set], so it is
    hashed as a plain object, by identity: [RoadPart_id] is the rank of the
    constructor call that made the object. *)
Record RoadPart := {
  RoadPart_id : nat;
  RoadPart_point_1 : Vec;
  RoadPart_point_2 : Vec;
  RoadPart_lanes : Q;
  RoadPart_scale : Q
}.

Definition RoadPart_eq_dec (a b : RoadPart) : {a = b} + {a <> b}.
Proof.
  decide equality; try apply Q_eq_dec; try apply Vec_eq_dec; apply Nat.eq_dec.
Defined.

(** [BuildingMode] and [LabelMode]: the mapper names [NO] and [FLAT] only;
    every other member takes the remaining branch. *)
Inductive BuildingMode :=
| BuildingMode_NO
| BuildingMode_FLAT
| BuildingMode_other (name : string).

Inductive LabelMode :=
| LabelMode_NO
| LabelMode_other (name : string).

Definition LabelMode_is_NO (m : LabelMode) : bool :=
  match m with
  | LabelMode_NO => true
  | LabelMode_other _ => false
  end.

(** [MapConfiguration]: [is_wireframe] and [background_color] hold the
    results of the methods of these names. *)
Record MapConfiguration := {
  MapConfiguration_overlap : Z;
  MapConfiguration_label_mode : LabelMode;
  MapConfiguration_building_mode : BuildingMode;
  MapConfiguration_draw_roofs : bool;
  MapConfiguration_credit : option string;
  MapConfiguration_is_wireframe : bool;
  MapConfiguration_background_color : option Color
}.

Record Scheme := {
  Scheme_get_color : string -> Color
}.

(** [Occupied(width, height, overlap)]: the tracker object, named by the
    arguments it is constructed with.  Its matrix lives in the [World]. *)
Record Occupied := {
  Occupied_width : Q;
  Occupied_height : Q;
  Occupied_overlap : Z
}.

Record Constructor := {
  Constructor_figures : list StyledFigure;
  Constructor_roads : Roads;
  Constructor_trees : list Tree;
  Constructor_craters : list Crater;
  Constructor_buildings : list Building;
  Constructor_direction_sectors : list DirectionSector;
  Constructor_points : list Point;
  Constructor_heights : list Q;
  Constructor_flinger : Flinger
}.

(** Modelled from the spec: [Constructor.get_sorted_figures]
    (map_machine.constructor) is missing from src.  The spec: figures come in
    ascending priority, then stable input order. *)
Definition get_sorted_figures (c : Constructor) : list StyledFigure :=
  sorted_key (fun x => LineStyle_priority (StyledFigure_line_style x))
             (Constructor_figures c).

(** ** Calls made on the document and on the collaborators *)

Inductive Call :=
| svg_add_Rect (insert size : Vec) (fill : Color)
| svg_add_Path (figure : StyledFigure) (d : string)
| Roads_draw (roads : Roads)
| Tree_draw (tree : Tree)
| Crater_draw (crater : Crater)
| Building_draw (building : Building)
| svg_add_shade (shaded : list Building)
| draw_walls (building : Building) (wall : Segment) (height : Q)
             (shift_1 shift_2 : Vec)
| Building_draw_roof (building : Building) (scale : Q)
| DirectionSector_draw (sector : DirectionSector)
| Point_draw_main_shapes (point : Point) (occupied : option Occupied)
| Point_draw_extra_shapes (point : Point) (occupied : option Occupied)
| Point_draw_texts (point : Point) (occupied : option Occupied)
                   (label_mode : LabelMode)
| draw_text (text : string) (point : Vec) (font_size : Q) (fill : Color)
            (anchor : string) (stroke_width : Q) (stroke : option Color)
            (opacity : Q)
| Intersection_draw (parts : list RoadPart).

(** ** The mapper *)

Definition ROAD_PRIORITY : Q := 40.

(** Constants of other modules: [BUILDING_SCALE] (feature.building) and
    [__project__]. *)
Record Imports := {
  BUILDING_SCALE : Q;
  project : string
}.

Record Map := {
  Map_flinger : Flinger;
  Map_scheme : Scheme;
  Map_configuration : MapConfiguration;
  Map_background_color : Color
}.

Module Map.

Definition init (flinger : Flinger) (scheme : Scheme)
           (configuration : MapConfiguration) : Map :=
  {| Map_flinger := flinger;
     Map_scheme := scheme;
     Map_configuration := configuration;
     Map_background_color :=
       match MapConfiguration_background_color configuration with
       | Some color => color
       | None => Scheme_get_color scheme "background_color"
       end |}.

(** The loop over [bottom_figures], and the one over [top_figures]. *)
Definition draw_figures (self : Map) (figures : list StyledFigure)
  : list Call :=
  flat_map
    (fun figure =>
       let path_commands := StyledFigure_get_path figure (Map_flinger self) in
       if String.eqb path_commands "" then []
       else [svg_add_Path figure path_commands])
    figures.

(** [walls[part] = building], for every part of every building. *)
Definition collect_walls (buildings : list Building)
  : list (Segment * Building) :=
  fold_left
    (fun walls building =>
       fold_left (fun walls part => dict_set Segment_eq_dec part building walls)
                 (Building_parts building) walls)
    buildings [].

Definition shift (I : Imports) (scale height : Q) : Vec :=
  (0%Q, (- height * scale * BUILDING_SCALE I)%Q).

(** The loop over [sorted_walls] at one height. *)
Definition draw_slice_walls (I : Imports) (scale : Q)
           (walls : list (Segment * Building)) (sorted_walls : list Segment)
           (previous_height height : Q) : list Call :=
  flat_map
    (fun wall =>
       match dict_get Segment_eq_dec wall walls with
       | None => []
       | Some building =>
           if Qltb (Building_height building) height
              || Qgeb (Building_min_height building) height
           then []
           else [draw_walls building wall height
                            (shift I scale previous_height)
                            (shift I scale height)]
       end)
    sorted_walls.

Definition draw_slice_roofs (self : Map) (scale : Q)
           (buildings : list Building) (height : Q) : list Call :=
  if MapConfiguration_draw_roofs (Map_configuration self) then
    flat_map
      (fun building =>
         if Qeq_bool (Building_height building) height
         then [Building_draw_roof building scale]
         else [])
      buildings
  else [].

(** The body of the loop over [sorted(constructor.heights)]. *)
Definition draw_slice (I : Imports) (self : Map) (scale : Q)
           (buildings : list Building) (walls : list (Segment * Building))
           (sorted_walls : list Segment) (previous_height height : Q)
  : list Call :=
  draw_slice_walls I scale walls sorted_walls previous_height height
  ++ draw_slice_roofs self scale buildings height.

Fixpoint draw_slices (I : Imports) (self : Map) (scale : Q)
         (buildings : list Building) (walls : list (Segment * Building))
         (sorted_walls : list Segment) (previous_height : Q)
         (heights : list Q) : list Call :=
  match heights with
  | [] => []
  | height :: rest =>
      draw_slice I self scale buildings walls sorted_walls
                 previous_height height
      ++ draw_slices I self scale buildings walls sorted_walls height rest
  end.

Definition draw_buildings (I : Imports) (Segment_lt : Segment -> Segment -> bool)
           (self : Map) (constructor : Constructor) : list Call :=
  match MapConfiguration_building_mode (Map_configuration self) with
  | BuildingMode_NO => []
  | BuildingMode_FLAT => map Building_draw (Constructor_buildings constructor)
  | BuildingMode_other _ =>
      let scale := Flinger_get_scale (Map_flinger self) None in
      let buildings := Constructor_buildings constructor in
      let walls := collect_walls buildings in
      let sorted_walls := sorted Segment_lt (dict_keys walls) in
      svg_add_shade buildings
      :: draw_slices I self scale buildings walls sorted_walls 0
                     (sorted Qltb (Constructor_heights constructor))
  end.

Definition credit_list (I : Imports) (self : Map) : list (string * Vec) :=
  let right_margin := 15%Q in
  let bottom_margin := 15%Q in
  let font_size := 10%Q in
  let vertical_spacing := 2%Q in
  ("Rendering: " ++ project I, (right_margin, bottom_margin))%string
  :: match MapConfiguration_credit (Map_configuration self) with
     | None => []
     | Some credit =>
         if String.eqb credit "" then []
         else [(("Data: " ++ credit)%string,
                (right_margin,
                 (bottom_margin + font_size + vertical_spacing)%Q))]
     end.

Definition draw_credits (I : Imports) (self : Map) (size : Vec) : list Call :=
  let font_size := 10%Q in
  let text_color : Color := "#888888"%string in
  let outline_color : Color := "#FFFFFF"%string in
  flat_map
    (fun '(text, point) =>
       map
         (fun '(stroke_width, stroke, opacity) =>
            draw_text text (Vec_sub size point) font_size text_color "end"%string
                      stroke_width stroke opacity)
         [(3%Q, Some outline_color, 0.7%Q); (1%Q, None, 1%Q)])
    (credit_list I self).

(** The [occupied] variable of [draw]. *)
Definition make_occupied (self : Map) : option Occupied :=
  let overlap := MapConfiguration_overlap (Map_configuration self) in
  if (overlap =? 0)%Z then None
  else Some {| Occupied_width := fst (Flinger_size (Map_flinger self));
               Occupied_height := snd (Flinger_size (Map_flinger self));
               Occupied_overlap := overlap |}.

(** [sorted(constructor.points, key=lambda x: -x.priority)]. *)
Definition sorted_points (constructor : Constructor) : list Point :=
  sorted_key (fun x => (- Point_priority x)%Q) (Constructor_points constructor).

Definition draw_texts (self : Map) (occupied : option Occupied)
           (nodes : list Point) : list Call :=
  flat_map
    (fun point =>
       if negb (MapConfiguration_is_wireframe (Map_configuration self))
          && negb (LabelMode_is_NO
                     (MapConfiguration_label_mode (Map_configuration self)))
       then [Point_draw_texts point occupied
               (MapConfiguration_label_mode (Map_configuration self))]
       else [])
    nodes.

Definition draw (I : Imports) (Segment_lt : Segment -> Segment -> bool)
           (self : Map) (constructor : Constructor) : list Call :=
  let figures := get_sorted_figures constructor in
  let top_figures :=
    filter (fun x => Qgeb (LineStyle_priority (StyledFigure_line_style x))
                          ROAD_PRIORITY) figures in
  let bottom_figures :=
    filter (fun x => Qltb (LineStyle_priority (StyledFigure_line_style x))
                          ROAD_PRIORITY) figures in
  let occupied := make_occupied self in
  let nodes := sorted_points constructor in
  [svg_add_Rect (0%Q, 0%Q) (Flinger_size (Map_flinger self))
                (Map_background_color self)]
  ++ draw_figures self bottom_figures
  ++ [Roads_draw (Constructor_roads constructor)]
  ++ draw_figures self top_figures
  ++ map Tree_draw (Constructor_trees constructor)
  ++ map Crater_draw (Constructor_craters constructor)
  ++ draw_buildings I Segment_lt self constructor
  ++ map DirectionSector_draw (Constructor_direction_sectors constructor)
  ++ map (fun node => Point_draw_main_shapes node occupied) nodes
  ++ map (fun point => Point_draw_extra_shapes point occupied) nodes
  ++ draw_texts self occupied nodes
  ++ draw_credits I self (Flinger_size (Constructor_flinger constructor)).

(** [draw_simple_roads].  [nodes] is a [dict] from node to the [set] of the
    half-edges that leave it; a set is kept as the list of its members in
    insertion order. *)
Definition set_add (part : RoadPart) (parts : list RoadPart) : list RoadPart :=
  if in_dec RoadPart_eq_dec part parts then parts else parts ++ [part].

(** [if node not in nodes: nodes[node] = set()]. *)
Definition nodes_init (node : OSMNode) (nodes : list (OSMNode * list RoadPart))
  : list (OSMNode * list RoadPart) :=
  if dict_contains OSMNode_eq_dec node nodes then nodes
  else dict_set OSMNode_eq_dec node [] nodes.

(** [nodes[node].add(part)]. *)
Definition nodes_add (node : OSMNode) (part : RoadPart)
           (nodes : list (OSMNode * list RoadPart))
  : list (OSMNode * list RoadPart) :=
  match dict_get OSMNode_eq_dec node nodes with
  | Some parts => dict_set OSMNode_eq_dec node (set_add part parts) nodes
  | None => nodes
  end.

(** The body of the loop over [range(len(road.nodes) - 1)].  The state is the
    number of RoadPart objects made so far and the [nodes] dictionary. *)
Definition add_segment (self : Map) (lanes : Q)
           (state : nat * list (OSMNode * list RoadPart))
           (segment : OSMNode * OSMNode)
  : nat * list (OSMNode * list RoadPart) :=
  let '(made, nodes) := state in
  let '(node_1, node_2) := segment in
  let point_1 := Flinger_fling (Map_flinger self) (OSMNode_coordinates node_1) in
  let point_2 := Flinger_fling (Map_flinger self) (OSMNode_coordinates node_2) in
  let scale :=
    Flinger_get_scale (Map_flinger self) (Some (OSMNode_coordinates node_1)) in
  let part_1 :=
    {| RoadPart_id := made; RoadPart_point_1 := point_1;
       RoadPart_point_2 := point_2; RoadPart_lanes := lanes;
       RoadPart_scale := scale |} in
  let part_2 :=
    {| RoadPart_id := S made; RoadPart_point_1 := point_2;
       RoadPart_point_2 := point_1; RoadPart_lanes := lanes;
       RoadPart_scale := scale |} in
  let nodes := nodes_init node_2 (nodes_init node_1 nodes) in
  (S (S made), nodes_add node_2 part_2 (nodes_add node_1 part_1 nodes)).

(** The pairs [(road.nodes[index], road.nodes[index + 1])]. *)
Definition road_segments (road : Road) : list (OSMNode * OSMNode) :=
  combine (Road_nodes road) (tl (Road_nodes road)).

Definition add_road (self : Map)
           (state : nat * list (OSMNode * list RoadPart)) (road : Road)
  : nat * list (OSMNode * list RoadPart) :=
  fold_left (add_segment self (Road_lanes road)) (road_segments road) state.

Definition collect_nodes (self : Map) (roads : list Road)
  : list (OSMNode * list RoadPart) :=
  snd (fold_left (add_road self) roads (0, [])).

(** The nodes that get an [Intersection], with the parts handed to it. *)
Definition junctions (self : Map) (roads : list Road)
  : list (OSMNode * list RoadPart) :=
  filter (fun '(node, parts) => negb (List.length parts <? 4))
         (collect_nodes self roads).

Definition draw_simple_roads (self : Map) (roads : list Road) : list Call :=
  map (fun '(node, parts) => Intersection_draw parts) (junctions self roads).

End Map.

(** ** The document *)

Section Document.

(** What a call appends to the document depends on the state of the objects
    it touches (the occupancy matrix, the offsets kept in each point, the
    document itself).  That state is the [World]; [perform] is the effect of
    one call: the primitives it appends and the new state. *)
Variables Prim World : Type.
Variable perform : Call -> World -> list Prim * World.

(** The primitives of the document, each with the call that appended it. *)
Fixpoint document (calls : list Call) (world : World) : list (Call * Prim) :=
  match calls with
  | [] => []
  | call :: rest =>
      let (prims, world') := perform call world in
      map (pair call) prims ++ document rest world'
  end.

(** The state in which the calls leave the objects they touch. *)
Fixpoint world_after (calls : list Call) (world : World) : World :=
  match calls with
  | [] => world
  | call :: rest => world_after rest (snd (perform call world))
  end.

End Document.

(** ** Layers *)

Definition StyledFigure_priority (figure : StyledFigure) : Q :=
  LineStyle_priority (StyledFigure_line_style figure).

Definition below_road (figure : StyledFigure) : bool :=
  Qltb (StyledFigure_priority figure) ROAD_PRIORITY.

Definition above_road (figure : StyledFigure) : bool :=
  Qgeb (StyledFigure_priority figure) ROAD_PRIORITY.

(** The layer of the spec (section 4.5, times ten) a call draws into.  Extra
    icons come after main icons inside layer 7.  The spec has no layer for
    direction sectors. *)
Definition spec_layer (call : Call) : option nat :=
  match call with
  | svg_add_Rect _ _ _ => Some 10
  | svg_add_Path figure _ => if below_road figure then Some 20 else Some 60
  | Roads_draw _ => Some 30
  | Intersection_draw _ => Some 30
  | Tree_draw _ => Some 40
  | Crater_draw _ => Some 40
  | Building_draw _ => Some 50
  | svg_add_shade _ => Some 50
  | draw_walls _ _ _ _ _ => Some 50
  | Building_draw_roof _ _ => Some 50
  | DirectionSector_draw _ => None
  | Point_draw_main_shapes _ _ => Some 70
  | Point_draw_extra_shapes _ _ => Some 75
  | Point_draw_texts _ _ _ => Some 80
  | draw_text _ _ _ _ _ _ _ _ => Some 90
  end.

(** The order in which [Map.draw] makes its calls. *)
Definition code_layer (call : Call) : nat :=
  match call with
  | svg_add_Rect _ _ _ => 1
  | svg_add_Path figure _ => if below_road figure then 2 else 4
  | Roads_draw _ => 3
  | Intersection_draw _ => 3
  | Tree_draw _ => 5
  | Crater_draw _ => 6
  | Building_draw _ => 7
  | svg_add_shade _ => 7
  | draw_walls _ _ _ _ _ => 7
  | Building_draw_roof _ _ => 7
  | DirectionSector_draw _ => 8
  | Point_draw_main_shapes _ _ => 9
  | Point_draw_extra_shapes _ _ => 10
  | Point_draw_texts _ _ _ => 11
  | draw_text _ _ _ _ _ _ _ _ => 12
  end.

(** [a] may come before [b]. *)
Definition layers_agree (layer : Call -> option nat) (a b : Call) : Prop :=
  match layer a, layer b with
  | Some x, Some y => x <= y
  | _, _ => True
  end.

(** Every element of a later layer comes after every element of an earlier
    layer. *)
Definition in_layer_order {P : Type} (layer : Call -> option nat)
           (doc : list (Call * P)) : Prop :=
  StronglySorted (fun a b => layers_agree layer (fst a) (fst b)) doc.

(** ** Reading a list of calls *)

Definition is_figure_path (call : Call) : bool :=
  match call with
  | svg_add_Path _ _ => true
  | _ => false
  end.

Definition is_roof (call : Call) : bool :=
  match call with
  | Building_draw_roof _ _ => true
  | _ => false
  end.

Definition is_wall (call : Call) : bool :=
  match call with
  | draw_walls _ _ _ _ _ => true
  | _ => false
  end.

Definition is_point_icon (call : Call) : bool :=
  match call with
  | Point_draw_main_shapes _ _ => true
  | Point_draw_extra_shapes _ _ => true
  | _ => false
  end.

(** The tracker handed to a call on a point. *)
Definition occupied_of (call : Call) : option (option Occupied) :=
  match call with
  | Point_draw_main_shapes _ occupied => Some occupied
  | Point_draw_extra_shapes _ occupied => Some occupied
  | Point_draw_texts _ occupied _ => Some occupied
  | _ => None
  end.

(** A call that draws [wall] in the slice that ends at [height]. *)
Definition draws_wall_at (wall : Segment) (height : Q) (call : Call) : bool :=
  match call with
  | draw_walls _ wall' height' _ _ =>
      (if Segment_eq_dec wall wall' then true else false)
      && Qeq_bool height' height
  | _ => false
  end.

(** [wall] is drawn in the slice that ends at [height]. *)
Definition wall_drawn_at (wall : Segment) (height : Q) (calls : list Call)
  : bool :=
  existsb (draws_wall_at wall height) calls.

(** How many times [wall] is drawn in the slices that end at [height]. *)
Definition times_wall_drawn_at (wall : Segment) (height : Q)
           (calls : list Call) : nat :=
  List.length (filter (draws_wall_at wall height) calls).

(** The building that owns [wall]: the last one, in input order, that lists
    it among its parts. *)
Definition has_part (wall : Segment) (building : Building) : bool :=
  if in_dec Segment_eq_dec wall (Building_parts building) then true else false.

Definition owner (buildings : list Building) (wall : Segment)
  : option Building :=
  find (has_part wall) (rev buildings).

(** The ends of a road segment that are [node]. *)
Definition segment_ends (node : OSMNode) (segment : OSMNode * OSMNode) : nat :=
  (if OSMNode_eq_dec (fst segment) node then 1 else 0)
  + (if OSMNode_eq_dec (snd segment) node then 1 else 0).

(** The number of half-edges that leave [node]: one for each end of a road
    segment that is [node]. *)
Definition half_edges (node : OSMNode) (segments : list (OSMNode * OSMNode))
  : nat :=
  list_sum (map (segment_ends node) segments).

(** The half-edges of a road that are incident to [node], counted on the
    nodes of the road and not on what the mapper makes of them.  A road
    through the nodes n_0, n_1, ..., n_k is the chain of the segments
    (n_0, n_1), ..., (n_(k-1), n_k), and each segment has one half-edge at
    each of its two ends: an occurrence of the node among n_0, ..., n_(k-1)
    is the start of a segment, an occurrence among n_1, ..., n_k the end of
    one.  So a node inside the road counts twice, an end of the road once,
    and a road of one node has no half-edge. *)
Definition incident_half_edges (node : OSMNode) (road : Road) : nat :=
  count_occ OSMNode_eq_dec (removelast (Road_nodes road)) node
  + count_occ OSMNode_eq_dec (tl (Road_nodes road)) node.

(** The half-edges of all roads that are incident to [node]. *)
Definition half_edges_at (node : OSMNode) (roads : list Road) : nat :=
  list_sum (map (incident_half_edges node) roads).

(** The parts stored for [node]. *)
Definition parts_at (node : OSMNode) (nodes : list (OSMNode * list RoadPart))
  : list RoadPart :=
  match dict_get OSMNode_eq_dec node nodes with
  | Some parts => parts
  | None => []
  end.

(** A junction shape is made for [node]. *)
Definition has_junction (self : Map) (roads : list Road) (node : OSMNode)
  : bool :=
  existsb (fun entry : OSMNode * list RoadPart =>
             if OSMNode_eq_dec (fst entry) node then true else false)
          (Map.junctions self roads).

(** ** The wall slices, as the spec states them and as the mapper draws them *)

(** Spec 4.5 (5b): a wall segment of a building is drawn at a slice exactly
    when the height of that building is at least the slice and its minimum
    height is below the slice. *)
Definition walls_follow_every_building (calls : list Call)
           (constructor : Constructor) : Prop :=
  forall (building : Building) (wall : Segment) (height : Q),
    In building (Constructor_buildings constructor) ->
    In wall (Building_parts building) ->
    In height (Constructor_heights constructor) ->
    (wall_drawn_at wall height calls = true
     <-> (height <= Building_height building)%Q
         /\ (Building_min_height building < height)%Q).

(** The mapper: a wall segment is drawn at a slice exactly when the height of
    its owner is at least the slice and the minimum height of its owner is
    below the slice. *)
Definition walls_follow_owner (calls : list Call) (constructor : Constructor)
  : Prop :=
  forall (wall : Segment) (height : Q),
    In height (Constructor_heights constructor) ->
    (wall_drawn_at wall height calls = true
     <-> exists building,
           owner (Constructor_buildings constructor) wall = Some building
           /\ (height <= Building_height building)%Q
           /\ (Building_min_height building < height)%Q).

(** Every wall is drawn for its owner. *)
Definition walls_drawn_for_owner (calls : list Call)
           (constructor : Constructor) : Prop :=
  Forall (fun call =>
            match call with
            | draw_walls building wall _ _ _ =>
                owner (Constructor_buildings constructor) wall = Some building
            | _ => True
            end) calls.

(** Between two recorded heights [h1 < h2] inside the extent of the owner of
    a wall, every level [x] lies in a slice drawn for that wall: the slice
    reaches from the shift of the previous height to the shift of its own. *)
Definition bands_covered (I : Imports) (scale : Q) (calls : list Call)
           (constructor : Constructor) : Prop :=
  forall (wall : Segment) (building : Building) (h1 h2 x : Q),
    owner (Constructor_buildings constructor) wall = Some building ->
    In h1 (Constructor_heights constructor) ->
    In h2 (Constructor_heights constructor) ->
    (Building_min_height building <= h1)%Q ->
    (h2 <= Building_height building)%Q ->
    (h1 <= x)%Q -> (x < h2)%Q ->
    exists previous height,
      In (draw_walls building wall height (Map.shift I scale previous)
                     (Map.shift I scale height)) calls
      /\ (previous <= x)%Q /\ (x < height)%Q.

(** The roofs of a slice: one for every building whose height equals the
    slice height, in input order. *)
Definition roofs_at (scale : Q) (buildings : list Building) (height : Q)
  : list Call :=
  map (fun building => Building_draw_roof building scale)
      (filter (fun building => Qeq_bool (Building_height building) height)
              buildings).

(** ** Notions used by the properties *)

(** One call may come before another in [Map.draw]. *)
Definition by_code_layer (a b : Call) : Prop := code_layer a <= code_layer b.

(** All calls of [calls] belong to layer [k]. *)
Definition layered (k : nat) (calls : list Call) : Prop :=
  Forall (fun call => code_layer call = k) calls.

(** No call of [calls] belongs to a layer before [k]. *)
Definition from_layer (k : nat) (calls : list Call) : Prop :=
  Forall (fun call => k <= code_layer call) calls.

(** The path of a figure, when it has one. *)
Definition figure_paths (self : Map) (figures : list StyledFigure)
  : list Call :=
  map (fun figure =>
         svg_add_Path figure (StyledFigure_get_path figure (Map_flinger self)))
      (filter (fun figure =>
                 negb (String.eqb
                         (StyledFigure_get_path figure (Map_flinger self)) ""))
              figures).

(** What the loop keeps true: the keys are distinct; the set of a node holds
    one part for each of its half-edges so far; every part was made by one
    of the constructor calls counted so far. *)
Definition nodes_invariant (state : nat * list (OSMNode * list RoadPart))
           (segments : list (OSMNode * OSMNode)) : Prop :=
  NoDup (dict_keys (snd state))
  /\ forall node,
      List.length (parts_at node (snd state)) = half_edges node segments
      /\ Forall (fun p => RoadPart_id p < fst state)
                (parts_at node (snd state))
      /\ NoDup (parts_at node (snd state)).

(** The calls [Map.draw] makes before the two passes over the points, and
    the calls it makes after them. *)
Definition calls_before_points (I : Imports)
           (Segment_lt : Segment -> Segment -> bool) (self : Map)
           (constructor : Constructor) : list Call :=
  [svg_add_Rect (0%Q, 0%Q) (Flinger_size (Map_flinger self))
                (Map_background_color self)]
  ++ Map.draw_figures self
       (filter below_road (get_sorted_figures constructor))
  ++ [Roads_draw (Constructor_roads constructor)]
  ++ Map.draw_figures self
       (filter above_road (get_sorted_figures constructor))
  ++ map Tree_draw (Constructor_trees constructor)
  ++ map Crater_draw (Constructor_craters constructor)
  ++ Map.draw_buildings I Segment_lt self constructor
  ++ map DirectionSector_draw (Constructor_direction_sectors constructor).

Definition calls_after_points (I : Imports) (self : Map)
           (constructor : Constructor) : list Call :=
  Map.draw_texts self (Map.make_occupied self)
                 (Map.sorted_points constructor)
  ++ Map.draw_credits I self
       (Flinger_size (Constructor_flinger constructor)).

(** [a] comes before [b] in ascending order of the key. *)
Definition ascending_by {A : Type} (key : A -> Q) (a b : A) : Prop :=
  (key a <= key b)%Q.

(** ** Further notions: walls, roofs and half-edges *)

(** The body of the loop over [sorted_walls], for one wall. *)
Definition wall_call (I : Imports) (scale : Q)
           (walls : list (Segment * Building)) (wall : Segment)
           (previous_height height : Q) : list Call :=
  match dict_get Segment_eq_dec wall walls with
  | None => []
  | Some building =>
      if Qltb (Building_height building) height
         || Qgeb (Building_min_height building) height
      then []
      else [draw_walls building wall height
                       (Map.shift I scale previous_height)
                       (Map.shift I scale height)]
  end.

(** A call that draws [wall]. *)
Definition is_call_of_wall (wall : Segment) (call : Call) : bool :=
  match call with
  | draw_walls _ wall' _ _ _ =>
      if Segment_eq_dec wall wall' then true else false
  | _ => false
  end.

Definition calls_of_wall (wall : Segment) (calls : list Call) : list Call :=
  filter (is_call_of_wall wall) calls.

(** Every wall call starts at the shift at which the wall call before it
    ended. *)
Fixpoint chained (calls : list Call) : Prop :=
  match calls with
  | [] => True
  | draw_walls _ _ _ _ reached :: rest =>
      match rest with
      | draw_walls _ _ _ start _ :: _ => start = reached
      | _ => True
      end
      /\ chained rest
  | _ :: rest => chained rest
  end.

(** The extrusion branch of [draw_buildings] is taken. *)
Definition is_extruded (mode : BuildingMode) : bool :=
  match mode with
  | BuildingMode_other _ => true
  | _ => false
  end.

(** The total number of parts stored in the [nodes] dictionary. *)
Definition total_parts (nodes : list (OSMNode * list RoadPart)) : nat :=
  list_sum (map (fun entry : OSMNode * list RoadPart =>
                   List.length (snd entry)) nodes).

(** The two parts made for a road segment by the constructor calls number
    [made] and [made + 1]. *)
Definition part_1_of (self : Map) (lanes : Q) (made : nat)
           (segment : OSMNode * OSMNode) : RoadPart :=
  {| RoadPart_id := made;
     RoadPart_point_1 :=
       Flinger_fling (Map_flinger self) (OSMNode_coordinates (fst segment));
     RoadPart_point_2 :=
       Flinger_fling (Map_flinger self) (OSMNode_coordinates (snd segment));
     RoadPart_lanes := lanes;
     RoadPart_scale :=
       Flinger_get_scale (Map_flinger self)
                         (Some (OSMNode_coordinates (fst segment))) |}.

Definition part_2_of (self : Map) (lanes : Q) (made : nat)
           (segment : OSMNode * OSMNode) : RoadPart :=
  {| RoadPart_id := S made;
     RoadPart_point_1 :=
       Flinger_fling (Map_flinger self) (OSMNode_coordinates (snd segment));
     RoadPart_point_2 :=
       Flinger_fling (Map_flinger self) (OSMNode_coordinates (fst segment));
     RoadPart_lanes := lanes;
     RoadPart_scale :=
       Flinger_get_scale (Map_flinger self)
                         (Some (OSMNode_coordinates (fst segment))) |}.

(** [part] is a half-edge of some road that leaves [node]: it starts at the
    node, ends at the other end of a segment of the road, and carries the
    lanes of the road and the scale taken at the first node of the
    segment. *)
Definition leaves_node (self : Map) (roads : list Road) (node : OSMNode)
           (part : RoadPart) : Prop :=
  exists (road : Road) (segment : OSMNode * OSMNode) (other : OSMNode),
    In road roads
    /\ In segment (Map.road_segments road)
    /\ (segment = (node, other) \/ segment = (other, node))
    /\ RoadPart_point_1 part
       = Flinger_fling (Map_flinger self) (OSMNode_coordinates node)
    /\ RoadPart_point_2 part
       = Flinger_fling (Map_flinger self) (OSMNode_coordinates other)
    /\ RoadPart_lanes part = Road_lanes road
    /\ RoadPart_scale part
       = Flinger_get_scale (Map_flinger self)
                           (Some (OSMNode_coordinates (fst segment))).

(** The texts that [draw_text] is called with, each with its position and
    its outline colour. *)
Definition texts_drawn (calls : list Call)
  : list (string * Vec * option Color) :=
  flat_map
    (fun call =>
       match call with
       | draw_text text point _ _ _ _ stroke _ => [(text, point, stroke)]
       | _ => []
       end)
    calls.

(** A constructor that has found nothing to draw but its roads. *)
Definition nothing_but_roads (roads : Roads) (heights : list Q)
           (flinger : Flinger) : Constructor :=
  {| Constructor_figures := [];
     Constructor_roads := roads;
     Constructor_trees := [];
     Constructor_craters := [];
     Constructor_buildings := [];
     Constructor_direction_sectors := [];
     Constructor_points := [];
     Constructor_heights := heights;
     Constructor_flinger := flinger |}.

(** ** [render_map]: the coordinates given on the command line *)

(** How a piece of [render_map] ends: with a value, with a [ValueError] that
    nothing catches, or in [sys.exit(1)] after [fatal] has logged its
    message. *)
Inductive Outcome (A : Type) : Type :=
| Return (value : A)
| ValueError
| SystemExit (message : string).

Arguments ValueError {A}.
Arguments SystemExit {A} message.

Definition fatal {A : Type} (message : string) : Outcome A :=
  SystemExit message.

(** [delimiter in text], for a delimiter of one character. *)
Fixpoint str_contains (delimiter : ascii) (text : string) : bool :=
  match text with
  | EmptyString => false
  | String c rest => Ascii.eqb c delimiter || str_contains delimiter rest
  end.

(** [text.split(delimiter)], for a delimiter of one character: the pieces
    between the occurrences of the delimiter, empty pieces included. *)
Fixpoint str_split (delimiter : ascii) (text : string) : list string :=
  match text with
  | EmptyString => [EmptyString]
  | String c rest =>
      if Ascii.eqb c delimiter then EmptyString :: str_split delimiter rest
      else match str_split delimiter rest with
           | piece :: pieces => String c piece :: pieces
           | [] => [String c EmptyString]
           end
  end.

Section CommandLine.

(** [float]: the number a string denotes, [None] where Python raises a
    [ValueError]. *)
Variable float : string -> option Q.

(** [list(map(float, pieces))]: the first piece that is no number raises. *)
Fixpoint floats (pieces : list string) : option (list Q) :=
  match pieces with
  | [] => Some []
  | piece :: rest =>
      match float piece with
      | None => None
      | Some number =>
          match floats rest with
          | None => None
          | Some numbers => Some (number :: numbers)
          end
      end
  end.

(** The body of the loop [for delimiter in ",", "/"], on the variable
    [coordinates]. *)
Definition read_coordinates (text : string)
           (coordinates : Outcome (option (list Q))) (delimiter : ascii)
  : Outcome (option (list Q)) :=
  match coordinates with
  | Return coordinates =>
      if str_contains delimiter text then
        match floats (str_split delimiter text) with
        | Some numbers => Return (Some numbers)
        | None => ValueError
        end
      else Return coordinates
  | ValueError => ValueError
  | SystemExit message => SystemExit message
  end.

(** The coordinates [render_map] hands to [BoundaryBox.from_coordinates],
    from the text of [--coordinates]: the loop and the test that follows it,
    in the branch taken when no [--boundary-box] is given and both
    [--coordinates] and [--size] are. *)
Definition parse_coordinates (text : string) : Outcome (list Q) :=
  match fold_left (read_coordinates text) [","%char; "/"%char] (Return None)
  with
  | Return None => fatal "Wrong coordinates format."
  | Return (Some coordinates) =>
      if List.length coordinates =? 2 then Return coordinates
      else fatal "Wrong coordinates format."
  | ValueError => ValueError
  | SystemExit message => SystemExit message
  end.

End CommandLine.

(** ** The grid of the test images: [element/test_elements.py] *)

Module test_elements.

Definition Tags : Type := list (string * string).

Definition Tags_eq_dec (a b : Tags) : {a = b} + {a <> b}.
Proof.
  apply list_eq_dec. decide equality; apply string_dec.
Defined.

(** [OSMNode(tags, id_, coordinates)], with the tags, which the mapper does
    not read.  The coordinates are (latitude, longitude). *)
Record OSMNode := {
  OSMNode_tags : Tags;
  OSMNode_id : Z;
  OSMNode_coordinates : Vec
}.

Definition OSMNode_eq_dec (a b : OSMNode) : {a = b} + {a <> b}.
Proof.
  decide equality; [apply Vec_eq_dec | apply Z.eq_dec | apply Tags_eq_dec].
Defined.

(** [OSMWay(tags, id_, nodes)]. *)
Record OSMWay := {
  OSMWay_tags : Tags;
  OSMWay_id : Z;
  OSMWay_nodes : list OSMNode
}.

(** Modelled from the spec: [BoundaryBox] (map_machine.geometry.boundary_box)
    is missing from src.  The spec: a four-sided geographic extent, minimum
    and maximum longitude and latitude.  Its four arguments are kept in the
    order the grid gives them: left, bottom, right, top. *)
Record BoundaryBox := {
  BoundaryBox_left : Q;
  BoundaryBox_bottom : Q;
  BoundaryBox_right : Q;
  BoundaryBox_top : Q
}.

(** [max(a, b)]: the first of the two unless the second is greater. *)
Definition max (a b : Q) : Q := if Qltb a b then b else a.

(** [range(n)], and [enumerate]. *)
Definition range (n : nat) : list Z := map Z.of_nat (seq 0 n).

Definition enumerate {A : Type} (l : list A) : list (Z * A) :=
  combine (range (List.length l)) l.

Definition len {A : Type} (l : list A) : Z := Z.of_nat (List.length l).

(** [tags |= dict(other)]. *)
Definition update (tags other : Tags) : Tags :=
  fold_left (fun tags '(key, value) => dict_set string_dec key value tags)
            other tags.

Record Grid := {
  Grid_x_step : Q;
  Grid_y_step : Q;
  Grid_x_start : Q;
  Grid_index : Z;
  Grid_nodes : list (OSMNode * (Z * Z));
  Grid_max_j : Q;
  Grid_max_i : Q
}.

Module Grid.

Definition init : Grid :=
  {| Grid_x_step := 0.0002;
     Grid_y_step := 0.0003;
     Grid_x_start := 0;
     Grid_index := 0;
     Grid_nodes := [];
     Grid_max_j := 0;
     Grid_max_i := 0 |}.

(** [add_node] returns the node; the second component is the grid after the
    call.  The products of an index and a step are exact here and rounded in
    Python: the properties below compare coordinates by order, or state that
    two results of one computation are equal, and rely on no exact sum. *)
Definition add_node (self : Grid) (tags : Tags) (i j : Z) : OSMNode * Grid :=
  let index := (Grid_index self + 1)%Z in
  let node :=
    {| OSMNode_tags := tags;
       OSMNode_id := index;
       OSMNode_coordinates :=
         ((inject_Z (- i) * Grid_y_step self)%Q,
          (inject_Z j * Grid_x_step self)%Q) |} in
  (node,
   {| Grid_x_step := Grid_x_step self;
      Grid_y_step := Grid_y_step self;
      Grid_x_start := Grid_x_start self;
      Grid_index := index;
      Grid_nodes := dict_set OSMNode_eq_dec node (j, i) (Grid_nodes self);
      Grid_max_j := max (Grid_max_j self) (inject_Z j * Grid_x_step self)%Q;
      Grid_max_i := max (Grid_max_i self) (inject_Z i * Grid_y_step self)%Q
   |}).

Definition get_boundary_box (self : Grid) : BoundaryBox :=
  {| BoundaryBox_left := (- Grid_x_step self)%Q;
     BoundaryBox_bottom := (- Grid_max_i self - Grid_y_step self)%Q;
     BoundaryBox_right := (Grid_max_j self + Grid_x_step self)%Q;
     BoundaryBox_top := Grid_y_step self |}.

End Grid.

(** The body of the loop [for j in range(len(features) + 1)]: the state is
    the grid, [previous], and the ways added to [osm_data] so far.
    [features[j - 1]] is read only when [previous] is set, that is for j from
    1 to [len(features)], where the index is in range. *)
Definition add_feature (type_ : Tags) (features : list Tags) (i : Z)
           (state : Grid * option OSMNode * list OSMWay) (j : Z)
  : Grid * option OSMNode * list OSMWay :=
  let '(grid, previous, ways) := state in
  let '(node, grid) := Grid.add_node grid [] i j in
  let ways :=
    match previous with
    | Some previous =>
        let tags := update type_ (nth (Z.to_nat (j - 1)) features []) in
        let way :=
          {| OSMWay_tags := tags;
             OSMWay_id := (i * (len features + 1) + j)%Z;
             OSMWay_nodes := [previous; node] |} in
        ways ++ [way]
    | None => ways
    end in
  (grid, Some node, ways).

(** The body of the loop [for i, type_ in enumerate(types)]. *)
Definition add_type (features : list Tags) (state : Grid * list OSMWay)
           (row : Z * Tags) : Grid * list OSMWay :=
  let '(grid, ways) := state in
  let '(i, type_) := row in
  let '(grid, _, ways) :=
    fold_left (add_feature type_ features i)
              (range (List.length features + 1)) (grid, None, ways) in
  (grid, ways).

(** The grid and the ways when the loops of [road_features] are over. *)
Definition road_features_loops (types features : list Tags)
  : Grid * list OSMWay :=
  fold_left (add_type features) (enumerate types) (Grid.init, []).

(** [road_features]: the ways added to [osm_data], and the boundary box,
    both handed to [draw]. *)
Definition road_features (types features : list Tags)
  : list OSMWay * BoundaryBox :=
  let '(grid, ways) := road_features_loops types features in
  (ways, Grid.get_boundary_box grid).

(** The node lies strictly inside the box. *)
Definition strictly_inside (box : BoundaryBox) (node : OSMNode) : Prop :=
  let latitude := fst (OSMNode_coordinates node) in
  let longitude := snd (OSMNode_coordinates node) in
  (BoundaryBox_left box < longitude)%Q
  /\ (longitude < BoundaryBox_right box)%Q
  /\ (BoundaryBox_bottom box < latitude)%Q
  /\ (latitude < BoundaryBox_top box)%Q.

(** The way joins two neighbours of a row of the grid: it has two nodes, on
    one latitude, the second at a greater longitude than the first; the id
    of the first is the id of the way and the id of the second is the next
    number. *)
Definition joins_neighbours (way : OSMWay) : Prop :=
  exists previous node,
    OSMWay_nodes way = [previous; node]
    /\ OSMNode_id previous = OSMWay_id way
    /\ OSMNode_id node = (OSMWay_id way + 1)%Z
    /\ (fst (OSMNode_coordinates node)
        == fst (OSMNode_coordinates previous))%Q
    /\ (snd (OSMNode_coordinates previous)
        < snd (OSMNode_coordinates node))%Q.

(** The node lies in the part of the plane that the grid has reached. *)
Definition within (grid : Grid) (node : OSMNode) : Prop :=
  let latitude := fst (OSMNode_coordinates node) in
  let longitude := snd (OSMNode_coordinates node) in
  (- Grid_max_i grid <= latitude)%Q /\ (latitude <= 0)%Q
  /\ (0 <= longitude)%Q /\ (longitude <= Grid_max_j grid)%Q.

(** What [road_features] keeps true of its grid, and of its ways. *)
Definition grid_invariant (grid : Grid) : Prop :=
  Grid_x_step grid = 0.0002%Q
  /\ Grid_y_step grid = 0.0003%Q
  /\ Forall (within grid) (dict_keys (Grid_nodes grid)).

Definition ways_invariant (grid : Grid) (ways : list OSMWay) : Prop :=
  Forall (fun way => (OSMWay_id way < Grid_index grid)%Z) ways
  /\ StronglySorted Z.lt (map OSMWay_id ways)
  /\ Forall joins_neighbours ways
  /\ Forall (fun way => Forall (within grid) (OSMWay_nodes way)) ways.

(** Before the turn [j] of the loop over the features, in the row [i]. *)
Definition row_invariant (type_ : Tags) (features : list Tags)
           (base : list Tags) (i j : nat)
           (state : Grid * option OSMNode * list OSMWay) : Prop :=
  let '(grid, previous, ways) := state in
  Grid_index grid
  = (Z.of_nat i * (len features + 1) + Z.of_nat j)%Z
  /\ grid_invariant grid
  /\ ways_invariant grid ways
  /\ match previous with
     | None => j = 0
     | Some previous =>
         0 < j
         /\ OSMNode_id previous = Grid_index grid
         /\ (fst (OSMNode_coordinates previous)
             == inject_Z (- Z.of_nat i) * 0.0003)%Q
         /\ (snd (OSMNode_coordinates previous)
             == inject_Z (Z.of_nat j) * 0.0002 - 0.0002)%Q
         /\ within grid previous
     end
  /\ map OSMWay_tags ways
     = base ++ map (update type_) (firstn (j - 1) features).

(** Before the turn [i] of the loop over the types. *)
Definition rows_invariant (types features : list Tags) (i : nat)
           (state : Grid * list OSMWay) : Prop :=
  let '(grid, ways) := state in
  Grid_index grid = (Z.of_nat i * (len features + 1))%Z
  /\ grid_invariant grid
  /\ ways_invariant grid ways
  /\ map OSMWay_tags ways
     = flat_map (fun type_ => map (update type_) features) (firstn i types).

End test_elements.

(** ** Sample inputs *)

Module Sample.

Definition flinger : Flinger :=
  {| Flinger_size := (100%Q, 80%Q);
     Flinger_get_scale := fun _ => 1%Q;
     Flinger_fling := fun coordinates => coordinates |}.

Definition scheme : Scheme :=
  {| Scheme_get_color := fun _ => "#EEEEEE"%string |}.

Definition configuration : MapConfiguration :=
  {| MapConfiguration_overlap := 12;
     MapConfiguration_label_mode := LabelMode_other "MAIN";
     MapConfiguration_building_mode := BuildingMode_other "ISOMETRIC";
     MapConfiguration_draw_roofs := true;
     MapConfiguration_credit := None;
     MapConfiguration_is_wireframe := false;
     MapConfiguration_background_color := None |}.

Definition map : Map := Map.init flinger scheme configuration.

Definition imports : Imports :=
  {| BUILDING_SCALE := 1%Q; project := "Map Machine" |}.

(** Walls are compared by the height of their middle on the canvas. *)
Definition Segment_lt (a b : Segment) : bool :=
  Qltb (snd (Segment_point_1 a) + snd (Segment_point_2 a))
       (snd (Segment_point_1 b) + snd (Segment_point_2 b)).

Definition figure (priority : Q) (path : string) : StyledFigure :=
  {| StyledFigure_line_style :=
       {| LineStyle_style := []; LineStyle_priority := priority |};
     StyledFigure_get_path := fun _ => path |}.

(** A pedestrian area above the roads, and a tree. *)
Definition overlay : StyledFigure := figure 50 "M 0,0 L 9,9".

Definition empty : Constructor :=
  {| Constructor_figures := [];
     Constructor_roads := {| Roads_id := 0 |};
     Constructor_trees := [];
     Constructor_craters := [];
     Constructor_buildings := [];
     Constructor_direction_sectors := [];
     Constructor_points := [];
     Constructor_heights := [];
     Constructor_flinger := flinger |}.

Definition overlay_and_tree : Constructor :=
  {| Constructor_figures := [overlay];
     Constructor_roads := {| Roads_id := 0 |};
     Constructor_trees := [{| Tree_id := 1 |}];
     Constructor_craters := [];
     Constructor_buildings := [];
     Constructor_direction_sectors := [];
     Constructor_points := [];
     Constructor_heights := [];
     Constructor_flinger := flinger |}.

(** Every call appends one primitive, named after the call. *)
Definition perform (call : Call) (world : unit) : list Call * unit :=
  ([call], world).

(** Two points of equal priority. *)
Definition two_points : Constructor :=
  {| Constructor_figures := [];
     Constructor_roads := {| Roads_id := 0 |};
     Constructor_trees := [];
     Constructor_craters := [];
     Constructor_buildings := [];
     Constructor_direction_sectors := [];
     Constructor_points :=
       [{| Point_id := 1; Point_priority := 5 |};
        {| Point_id := 2; Point_priority := 5 |}];
     Constructor_heights := [];
     Constructor_flinger := flinger |}.

(** Three points: the second stands where the first stands, the third
    elsewhere. *)
Definition point_a : Point := {| Point_id := 2; Point_priority := 9 |}.
Definition point_b : Point := {| Point_id := 3; Point_priority := 5 |}.
Definition point_c : Point := {| Point_id := 4; Point_priority := 1 |}.

Definition three_points : Constructor :=
  {| Constructor_figures := [];
     Constructor_roads := {| Roads_id := 0 |};
     Constructor_trees := [];
     Constructor_craters := [];
     Constructor_buildings := [];
     Constructor_direction_sectors := [];
     Constructor_points := [point_c; point_a; point_b];
     Constructor_heights := [];
     Constructor_flinger := flinger |}.

(** The cell a point stands on: the points 2k and 2k + 1 share the cell k. *)
Definition cell (point : Point) : nat := Nat.div2 (Point_id point).

(** Modelled from the spec: [Point.draw_main_shapes] and the occupancy
    matrix (map_machine.pictogram.point, map_machine.geometry) are missing
    from src.  The spec: the tracker is the set of the claimed regions; each
    main icon claims its footprint in the tracker if tracking is enabled; a
    claim failure means the icon is silently skipped.  The state is the list
    of the claimed cells, a main icon that is drawn appends its cell; the
    other calls are left out of this sample. *)
Definition tracker (call : Call) (claimed : list nat)
  : list nat * list nat :=
  match call with
  | Point_draw_main_shapes point (Some _) =>
      if existsb (Nat.eqb (cell point)) claimed then ([], claimed)
      else ([cell point], cell point :: claimed)
  | Point_draw_main_shapes point None => ([cell point], claimed)
  | _ => ([], claimed)
  end.

(** Two building parts that share one wall: a tower and a low annex. *)
Definition wall : Segment :=
  {| Segment_point_1 := (0%Q, 0%Q); Segment_point_2 := (10%Q, 0%Q) |}.

Definition tower : Building :=
  {| Building_id := 1; Building_parts := [wall];
     Building_height := 10; Building_min_height := 0 |}.

Definition annex : Building :=
  {| Building_id := 2; Building_parts := [wall];
     Building_height := 2; Building_min_height := 0 |}.

Definition shared_wall : Constructor :=
  {| Constructor_figures := [];
     Constructor_roads := {| Roads_id := 0 |};
     Constructor_trees := [];
     Constructor_craters := [];
     Constructor_buildings := [tower; annex];
     Constructor_direction_sectors := [];
     Constructor_points := [];
     Constructor_heights := [10%Q; 2%Q];
     Constructor_flinger := flinger |}.

(** A crossroads: two roads that cross at [centre]; and a T-junction: the
    second road ends at [centre]. *)
Definition node (id : Z) (x y : Q) : OSMNode :=
  {| OSMNode_id := id; OSMNode_coordinates := (x, y) |}.

Definition centre : OSMNode := node 1 0 0.
Definition west : OSMNode := node 2 (-1) 0.
Definition east : OSMNode := node 3 1 0.
Definition north : OSMNode := node 4 0 1.
Definition south : OSMNode := node 5 0 (-1).

Definition crossroads : list Road :=
  [{| Road_nodes := [west; centre; east]; Road_lanes := 2 |};
   {| Road_nodes := [north; centre; south]; Road_lanes := 1 |}].

Definition t_junction : list Road :=
  [{| Road_nodes := [west; centre; east]; Road_lanes := 2 |};
   {| Road_nodes := [north; centre]; Road_lanes := 1 |}].

(** A tower that stands alone, with three recorded heights. *)
Definition tower_alone : Constructor :=
  {| Constructor_figures := [];
     Constructor_roads := {| Roads_id := 0 |};
     Constructor_trees := [];
     Constructor_craters := [];
     Constructor_buildings := [tower];
     Constructor_direction_sectors := [];
     Constructor_points := [];
     Constructor_heights := [10%Q; 2%Q; 4%Q];
     Constructor_flinger := flinger |}.


(** A reader of unsigned decimal integers, which stands for [float] on the
    strings it accepts. *)
Fixpoint digits (text : string) (value : Z) : option Z :=
  match text with
  | EmptyString => Some value
  | String c rest =>
      let code := nat_of_ascii c in
      if ((48 <=? code) && (code <=? 57))%nat
      then digits rest (10 * value + Z.of_nat (code - 48))
      else None
  end.

Definition float (text : string) : option Q :=
  match text with
  | EmptyString => None
  | _ => option_map inject_Z (digits text 0)
  end.

End Sample.

(** * Properties *)

(** ** Comparisons *)

Lemma Qltb_lt (x y : Q) : Qltb x y = true <-> (x < y)%Q.
Proof.
  unfold Qltb. rewrite Qlt_alt. destruct (x ?= y)%Q; split; congruence.
Qed.

Lemma Qltb_ge (x y : Q) : Qltb x y = false <-> (y <= x)%Q.
Proof.
  split; intro H.
  - apply Qnot_lt_le. intro L. apply Qltb_lt in L. congruence.
  - destruct (Qltb x y) eqn:E; [|reflexivity].
    apply Qltb_lt in E. exfalso. exact (Qle_not_lt _ _ H E).
Qed.

Lemma Qgeb_le (x y : Q) : Qgeb x y = true <-> (y <= x)%Q.
Proof.
  unfold Qgeb. apply Qle_bool_iff.
Qed.

Lemma Qgeb_negb_Qltb (x y : Q) : Qgeb x y = negb (Qltb x y).
Proof.
  destruct (Qltb x y) eqn:E; simpl.
  - apply Qltb_lt in E. destruct (Qgeb x y) eqn:G; [|reflexivity].
    apply Qgeb_le in G. exfalso. exact (Qle_not_lt _ _ G E).
  - apply Qltb_ge in E. apply Qgeb_le. exact E.
Qed.

(** ** Lists *)

Lemma Forall_filter_keep {A : Type} (P : A -> Prop) (p : A -> bool)
      (l : list A) :
  Forall P l -> Forall P (filter p l).
Proof.
  induction 1 as [|x l Hx _ IH]; simpl.
  - constructor.
  - destruct (p x); [constructor; assumption | exact IH].
Qed.

(** ** [sorted] *)

Section SortedFacts.

Context {A : Type}.
Variable lt : A -> A -> bool.

Lemma insert_Permutation (x : A) (l : list A) :
  Permutation (insert lt x l) (x :: l).
Proof.
  induction l as [|y l IH]; simpl.
  - apply Permutation_refl.
  - destruct (lt y x).
    + eapply Permutation_trans; [apply perm_skip, IH | apply perm_swap].
    + apply Permutation_refl.
Qed.

Lemma sorted_Permutation (l : list A) : Permutation (sorted lt l) l.
Proof.
  induction l as [|x l IH]; simpl.
  - apply Permutation_refl.
  - eapply Permutation_trans; [apply insert_Permutation|].
    apply perm_skip, IH.
Qed.

Lemma sorted_In (l : list A) (x : A) : In x (sorted lt l) <-> In x l.
Proof.
  split; apply Permutation_in;
    [apply sorted_Permutation | apply Permutation_sym, sorted_Permutation].
Qed.

Lemma sorted_NoDup (l : list A) : NoDup l -> NoDup (sorted lt l).
Proof.
  intro H. eapply Permutation_NoDup; [|exact H].
  apply Permutation_sym, sorted_Permutation.
Qed.

Lemma insert_head (x : A) (l : list A) :
  Forall (fun y => lt y x = false) l -> insert lt x l = x :: l.
Proof.
  destruct l as [|y l]; simpl; [reflexivity|].
  intro H. inversion H as [|? ? Hy _]; subst. rewrite Hy. reflexivity.
Qed.

End SortedFacts.

Section SortedKeyFacts.

Context {A : Type}.
Variable key : A -> Q.

Lemma insert_key_sorted (x : A) (l : list A) :
  StronglySorted (ascending_by key) l ->
  StronglySorted (ascending_by key) (insert (fun a b => Qltb (key a) (key b)) x l).
Proof.
  induction 1 as [|y l Hs IH Hy]; simpl.
  - constructor; constructor.
  - destruct (Qltb (key y) (key x)) eqn:E.
    + constructor; [exact IH|].
      eapply Permutation_Forall;
        [apply Permutation_sym, insert_Permutation|].
      constructor; [|exact Hy].
      apply Qltb_lt in E. apply Qlt_le_weak. exact E.
    + apply Qltb_ge in E.
      constructor; [constructor; assumption|].
      constructor; [exact E|].
      eapply Forall_impl; [|exact Hy].
      intros z Hz. unfold ascending_by in *. eapply Qle_trans; eassumption.
Qed.

Lemma sorted_key_sorted (l : list A) :
  StronglySorted (ascending_by key) (sorted_key key l).
Proof.
  unfold sorted_key. induction l as [|x l IH]; simpl.
  - constructor.
  - apply insert_key_sorted. exact IH.
Qed.

Lemma sorted_key_Permutation (l : list A) : Permutation (sorted_key key l) l.
Proof.
  apply sorted_Permutation.
Qed.

Lemma filter_insert_key (p : A -> bool) (x : A) (l : list A) :
  StronglySorted (ascending_by key) l ->
  filter p (insert (fun a b => Qltb (key a) (key b)) x l)
  = if p x then insert (fun a b => Qltb (key a) (key b)) x (filter p l)
    else filter p l.
Proof.
  induction 1 as [|y l Hs IH Hy]; simpl.
  - destruct (p x); reflexivity.
  - destruct (Qltb (key y) (key x)) eqn:E; simpl.
    + rewrite IH. destruct (p y) eqn:Py; destruct (p x) eqn:Px; simpl;
        try rewrite E; reflexivity.
    + apply Qltb_ge in E.
      destruct (p x) eqn:Px; [|reflexivity].
      symmetry. apply insert_head.
      assert (Hall : Forall (fun z => Qltb (key z) (key x) = false) (y :: l)).
      { constructor.
        - apply Qltb_ge. exact E.
        - eapply Forall_impl; [|exact Hy].
          intros z Hz. apply Qltb_ge. unfold ascending_by in Hz.
          eapply Qle_trans; eassumption. }
      change (Forall (fun z => Qltb (key z) (key x) = false)
                     (filter p (y :: l))).
      apply Forall_filter_keep. exact Hall.
Qed.

(** The sort is stable: it commutes with every filter. *)
Lemma filter_sorted_key (p : A -> bool) (l : list A) :
  filter p (sorted_key key l) = sorted_key key (filter p l).
Proof.
  unfold sorted_key. induction l as [|x l IH]; simpl; [reflexivity|].
  rewrite filter_insert_key by apply sorted_key_sorted.
  rewrite IH. destruct (p x); reflexivity.
Qed.

(** A list whose keys are all equal is left as it is. *)
Lemma sorted_key_same (v : Q) (l : list A) :
  Forall (fun a => (key a == v)%Q) l -> sorted_key key l = l.
Proof.
  unfold sorted_key. induction 1 as [|x l Hx Hl IH]; simpl; [reflexivity|].
  rewrite IH. apply insert_head.
  eapply Forall_impl; [|exact Hl].
  intros y Hy. simpl in Hy. apply Qltb_ge. rewrite Hx, Hy. apply Qle_refl.
Qed.

End SortedKeyFacts.

(** ** The calls of [Map.draw], layer by layer *)

Lemma from_layer_weaken (j k : nat) (calls : list Call) :
  j <= k -> from_layer k calls -> from_layer j calls.
Proof.
  intros Hjk H. eapply Forall_impl; [|exact H].
  intros call Hc. simpl in Hc. lia.
Qed.

Lemma from_layer_nil (k : nat) : from_layer k [].
Proof.
  constructor.
Qed.

Lemma layered_app_sorted (k : nat) (l1 l2 : list Call) :
  layered k l1 ->
  StronglySorted by_code_layer l2 /\ from_layer k l2 ->
  StronglySorted by_code_layer (l1 ++ l2) /\ from_layer k (l1 ++ l2).
Proof.
  intros H1 [H2 H3]. induction H1 as [|call l1 Hc _ IH]; simpl.
  - split; assumption.
  - destruct IH as [IHs IHf]. split.
    + constructor; [exact IHs|].
      eapply Forall_impl; [|exact IHf].
      intros b Hb. unfold by_code_layer. simpl in Hb. lia.
    + constructor; [lia | exact IHf].
Qed.

Lemma layered_step (k : nat) (l1 l2 : list Call) :
  layered k l1 ->
  StronglySorted by_code_layer l2 /\ from_layer (S k) l2 ->
  StronglySorted by_code_layer (l1 ++ l2) /\ from_layer k (l1 ++ l2).
Proof.
  intros H1 [H2 H3]. apply layered_app_sorted; [exact H1|].
  split; [exact H2|]. eapply from_layer_weaken; [|exact H3]. lia.
Qed.

Lemma layered_map {A : Type} (k : nat) (f : A -> Call) (l : list A) :
  (forall a, code_layer (f a) = k) -> layered k (map f l).
Proof.
  intro H. unfold layered. rewrite Forall_map. apply Forall_forall.
  intros a _. apply H.
Qed.

Lemma layered_flat_map {A : Type} (k : nat) (f : A -> list Call)
      (l : list A) :
  Forall (fun a => layered k (f a)) l -> layered k (flat_map f l).
Proof.
  induction 1 as [|a l Ha _ IH]; simpl.
  - constructor.
  - apply Forall_app. split; assumption.
Qed.

Lemma layered_app (k : nat) (l1 l2 : list Call) :
  layered k l1 -> layered k l2 -> layered k (l1 ++ l2).
Proof.
  intros H1 H2. apply Forall_app. split; assumption.
Qed.

Lemma draw_figures_below_layered (self : Map) (figures : list StyledFigure) :
  layered 2 (Map.draw_figures self (filter below_road figures)).
Proof.
  apply layered_flat_map. apply Forall_forall. intros figure Hf.
  apply filter_In in Hf. destruct Hf as [_ Hb]. cbv beta zeta.
  destruct (String.eqb _ _); constructor; [|constructor].
  simpl. rewrite Hb. reflexivity.
Qed.

Lemma draw_figures_above_layered (self : Map) (figures : list StyledFigure) :
  layered 4 (Map.draw_figures self (filter above_road figures)).
Proof.
  apply layered_flat_map. apply Forall_forall. intros figure Hf.
  apply filter_In in Hf. destruct Hf as [_ Ha]. cbv beta zeta.
  destruct (String.eqb _ _); constructor; [|constructor].
  simpl. unfold above_road in Ha. rewrite Qgeb_negb_Qltb in Ha.
  unfold below_road. destruct (Qltb _ _); [discriminate | reflexivity].
Qed.

Lemma draw_slice_layered (I : Imports) (self : Map) (scale : Q)
      (buildings : list Building) (walls : list (Segment * Building))
      (sorted_walls : list Segment) (previous_height height : Q) :
  layered 7 (Map.draw_slice I self scale buildings walls sorted_walls
                            previous_height height).
Proof.
  apply layered_app.
  - apply layered_flat_map. apply Forall_forall. intros wall _. cbv beta.
    destruct (dict_get _ _ _); [|constructor].
    destruct (_ || _); constructor; [reflexivity | constructor].
  - unfold Map.draw_slice_roofs.
    destruct (MapConfiguration_draw_roofs _); [|constructor].
    apply layered_flat_map. apply Forall_forall. intros building _. cbv beta.
    destruct (Qeq_bool _ _); constructor; [reflexivity | constructor].
Qed.

Lemma draw_slices_layered (I : Imports) (self : Map) (scale : Q)
      (buildings : list Building) (walls : list (Segment * Building))
      (sorted_walls : list Segment) (heights : list Q) (previous_height : Q) :
  layered 7 (Map.draw_slices I self scale buildings walls sorted_walls
                             previous_height heights).
Proof.
  revert previous_height.
  induction heights as [|height rest IH]; intro previous_height; simpl.
  - constructor.
  - apply layered_app; [apply draw_slice_layered | apply IH].
Qed.

Lemma draw_buildings_layered (I : Imports)
      (Segment_lt : Segment -> Segment -> bool) (self : Map)
      (constructor : Constructor) :
  layered 7 (Map.draw_buildings I Segment_lt self constructor).
Proof.
  unfold Map.draw_buildings.
  destruct (MapConfiguration_building_mode _).
  - constructor.
  - apply layered_map. reflexivity.
  - constructor; [reflexivity | apply draw_slices_layered].
Qed.

Lemma draw_texts_layered (self : Map) (occupied : option Occupied)
      (nodes : list Point) :
  layered 11 (Map.draw_texts self occupied nodes).
Proof.
  apply layered_flat_map. apply Forall_forall. intros point _. cbv beta.
  destruct (_ && _); constructor; [reflexivity | constructor].
Qed.

Lemma draw_credits_layered (I : Imports) (self : Map) (size : Vec) :
  layered 12 (Map.draw_credits I self size).
Proof.
  apply layered_flat_map. apply Forall_forall. intros [text point] _. cbv beta iota.
  apply layered_map. intros [[stroke_width stroke] opacity]. reflexivity.
Qed.

(** [Map.draw] with its sorted figures written out. *)
Lemma draw_unfold (I : Imports) (Segment_lt : Segment -> Segment -> bool)
      (self : Map) (constructor : Constructor) :
  Map.draw I Segment_lt self constructor
  = [svg_add_Rect (0%Q, 0%Q) (Flinger_size (Map_flinger self))
                  (Map_background_color self)]
    ++ Map.draw_figures self
         (filter below_road (get_sorted_figures constructor))
    ++ [Roads_draw (Constructor_roads constructor)]
    ++ Map.draw_figures self
         (filter above_road (get_sorted_figures constructor))
    ++ map Tree_draw (Constructor_trees constructor)
    ++ map Crater_draw (Constructor_craters constructor)
    ++ Map.draw_buildings I Segment_lt self constructor
    ++ map DirectionSector_draw (Constructor_direction_sectors constructor)
    ++ map (fun node => Point_draw_main_shapes node (Map.make_occupied self))
           (Map.sorted_points constructor)
    ++ map (fun point => Point_draw_extra_shapes point
                           (Map.make_occupied self))
           (Map.sorted_points constructor)
    ++ Map.draw_texts self (Map.make_occupied self)
                      (Map.sorted_points constructor)
    ++ Map.draw_credits I self (Flinger_size (Constructor_flinger constructor)).
Proof.
  reflexivity.
Qed.

(** The calls of [Map.draw] come layer after layer. *)
Lemma draw_by_code_layer (I : Imports)
      (Segment_lt : Segment -> Segment -> bool) (self : Map)
      (constructor : Constructor) :
  StronglySorted by_code_layer (Map.draw I Segment_lt self constructor).
Proof.
  rewrite draw_unfold.
  apply (layered_step (k := 1)); [repeat constructor|].
  apply layered_step; [apply draw_figures_below_layered|].
  apply layered_step; [repeat constructor|].
  apply layered_step; [apply draw_figures_above_layered|].
  apply layered_step; [apply layered_map; reflexivity|].
  apply layered_step; [apply layered_map; reflexivity|].
  apply layered_step; [apply draw_buildings_layered|].
  apply layered_step; [apply layered_map; reflexivity|].
  apply layered_step; [apply layered_map; reflexivity|].
  apply layered_step; [apply layered_map; reflexivity|].
  apply layered_step; [apply draw_texts_layered|].
  rewrite <- (app_nil_r (Map.draw_credits _ _ _)).
  apply layered_step; [apply draw_credits_layered|].
  split; constructor.
Qed.

(** ** The document follows the calls *)

Section DocumentFacts.

Variables Prim World : Type.
Variable perform : Call -> World -> list Prim * World.

Lemma document_fst_In (calls : list Call) (world : World)
      (entry : Call * Prim) :
  In entry (document perform calls world) -> In (fst entry) calls.
Proof.
  revert world. induction calls as [|call rest IH]; intros world; simpl.
  - intros [].
  - destruct (perform call world) as [prims world'].
    intro H. apply in_app_or in H. destruct H as [H|H].
    + apply in_map_iff in H. destruct H as [prim [E _]]. subst entry.
      left. reflexivity.
    + right. eapply IH. exact H.
Qed.

Lemma document_sorted (R : Call -> Call -> Prop) (calls : list Call)
      (world : World) :
  (forall call, R call call) ->
  StronglySorted R calls ->
  StronglySorted (fun a b => R (fst a) (fst b))
                 (document perform calls world).
Proof.
  intros Hrefl Hs. revert world.
  induction Hs as [|call rest Hs IH Hall]; intros world; simpl.
  - constructor.
  - destruct (perform call world) as [prims world'].
    induction prims as [|prim prims IHp]; simpl.
    + apply IH.
    + constructor; [exact IHp|].
      apply Forall_app. split.
      * rewrite Forall_map. apply Forall_forall. intros q _. apply Hrefl.
      * apply Forall_forall. intros entry He. simpl.
        apply document_fst_In in He.
        rewrite Forall_forall in Hall. apply Hall. exact He.
Qed.

(** A call that, in the state it is made in, appends nothing and changes
    nothing can be left out. *)
Lemma document_skip_at (before after : list Call) (call : Call)
      (world : World) :
  perform call (world_after perform before world)
  = ([], world_after perform before world) ->
  document perform (before ++ call :: after) world
  = document perform (before ++ after) world.
Proof.
  revert world. induction before as [|first before IH]; intros world; simpl.
  - intro Hskip. rewrite Hskip. reflexivity.
  - destruct (perform first world) as [prims world']. cbn [snd].
    intro Hskip. rewrite (IH world' Hskip). reflexivity.
Qed.

End DocumentFacts.

Lemma StronglySorted_pair {A : Type} (R : A -> A -> Prop)
      (l1 l2 l3 : list A) (a b : A) :
  StronglySorted R (l1 ++ a :: l2 ++ b :: l3) -> R a b.
Proof.
  induction l1 as [|x l1 IH]; simpl; intro H.
  - inversion H as [|? ? _ Hall]; subst.
    rewrite Forall_forall in Hall. apply Hall.
    apply in_or_app. right. left. reflexivity.
  - inversion H; subst. apply IH. assumption.
Qed.

(** ** C1: the layer order *)

(** C1, as the claim states it, fails: a figure whose priority is at or above
    the road threshold (layer 6 of the spec) is drawn before a tree (layer 4
    of the spec). *)
Lemma C1_spec_layer_order_fails :
  ~ in_layer_order spec_layer
      (document Sample.perform
         (Map.draw Sample.imports Sample.Segment_lt Sample.map
                   Sample.overlay_and_tree) tt).
Proof.
  intro H.
  pose (path := svg_add_Path Sample.overlay "M 0,0 L 9,9").
  pose (tree := Tree_draw {| Tree_id := 1 |}).
  assert (E : exists l1 l3,
             document Sample.perform
               (Map.draw Sample.imports Sample.Segment_lt Sample.map
                         Sample.overlay_and_tree) tt
             = l1 ++ (path, path) :: [] ++ (tree, tree) :: l3).
  { eexists [_; _], _. reflexivity. }
  destruct E as [l1 [l3 E]]. unfold in_layer_order in H. rewrite E in H.
  apply StronglySorted_pair in H. vm_compute in H. lia.
Qed.

(** C1, amended: the primitives of the document come in the order of the
    layers of [Map.draw]: background, figures below the road threshold,
    roads, figures at or above the road threshold, trees, craters, buildings,
    direction sectors, main icons, extra icons, labels, credits; every
    primitive of a later layer comes after every primitive of an earlier
    one, whatever the calls append. *)
Theorem C1_code_layer_order (Prim World : Type)
        (perform : Call -> World -> list Prim * World) (world : World)
        (I : Imports) (Segment_lt : Segment -> Segment -> bool) (self : Map)
        (constructor : Constructor) :
  in_layer_order (fun call => Some (code_layer call))
    (document perform (Map.draw I Segment_lt self constructor) world).
Proof.
  unfold in_layer_order, layers_agree.
  apply (document_sorted perform (R := by_code_layer)).
  - intro call. unfold by_code_layer. lia.
  - apply draw_by_code_layer.
Qed.

(** ** C2: figures below and above the road threshold *)

Lemma above_road_negb (figure : StyledFigure) :
  above_road figure = negb (below_road figure).
Proof.
  apply Qgeb_negb_Qltb.
Qed.

Lemma filter_split_Permutation {A : Type} (p q : A -> bool) (l : list A) :
  (forall a, q a = negb (p a)) ->
  Permutation (filter p l ++ filter q l) l.
Proof.
  intro H. induction l as [|a l IH]; simpl; [constructor|].
  rewrite H. destruct (p a); simpl.
  - apply perm_skip. exact IH.
  - apply Permutation_sym. apply Permutation_cons_app.
    apply Permutation_sym. exact IH.
Qed.

Lemma draw_figures_paths (self : Map) (figures : list StyledFigure) :
  Map.draw_figures self figures = figure_paths self figures.
Proof.
  unfold Map.draw_figures, figure_paths.
  induction figures as [|figure figures IH]; simpl; [reflexivity|].
  destruct (String.eqb _ _); simpl; rewrite IH; reflexivity.
Qed.

Lemma layered_no_figure_path (k : nat) (calls : list Call) :
  layered k calls -> 4 < k ->
  Forall (fun call => is_figure_path call = false) calls.
Proof.
  intros H Hk. eapply Forall_impl; [|exact H].
  intros call Hc. simpl in Hc. destruct call; try reflexivity.
  simpl in Hc. destruct (below_road figure); lia.
Qed.

(** C2: the figures drawn before the road layer are exactly those whose
    priority is strictly below [ROAD_PRIORITY] = 40, the figures drawn after
    it are exactly those whose priority is at least 40, each group in
    ascending priority (figures of equal priority in input order); the roads
    are drawn between the two groups by one call that reads no priority, and
    no figure is drawn anywhere else.  A figure with no path commands draws
    nothing. *)
Theorem C2_figures_split_at_ROAD_PRIORITY
        (I : Imports) (Segment_lt : Segment -> Segment -> bool) (self : Map)
        (constructor : Constructor) :
  let figures := Constructor_figures constructor in
  let bottom := sorted_key StyledFigure_priority (filter below_road figures) in
  let top := sorted_key StyledFigure_priority (filter above_road figures) in
  let ascending := fun a b : StyledFigure =>
                     (StyledFigure_priority a <= StyledFigure_priority b)%Q in
  exists rest,
    Map.draw I Segment_lt self constructor
    = svg_add_Rect (0%Q, 0%Q) (Flinger_size (Map_flinger self))
                   (Map_background_color self)
      :: figure_paths self bottom
      ++ Roads_draw (Constructor_roads constructor)
      :: figure_paths self top
      ++ rest
    /\ Forall (fun call => is_figure_path call = false) rest
    /\ Forall (fun figure => (StyledFigure_priority figure < 40)%Q) bottom
    /\ Forall (fun figure => (40 <= StyledFigure_priority figure)%Q) top
    /\ Permutation (bottom ++ top) figures
    /\ StronglySorted ascending bottom
    /\ StronglySorted ascending top.
Proof.
  cbv zeta. eexists. split; [|split; [|split; [|split; [|split; [|split]]]]].
  - rewrite draw_unfold. unfold get_sorted_figures.
    change (fun x => LineStyle_priority (StyledFigure_line_style x))
      with StyledFigure_priority.
    rewrite !filter_sorted_key, !draw_figures_paths. reflexivity.
  - apply Forall_app; split;
      [apply (layered_no_figure_path (k := 5));
       [apply layered_map; reflexivity | lia]|].
    apply Forall_app; split;
      [apply (layered_no_figure_path (k := 6));
       [apply layered_map; reflexivity | lia]|].
    apply Forall_app; split;
      [eapply layered_no_figure_path; [apply draw_buildings_layered | lia]|].
    apply Forall_app; split;
      [apply (layered_no_figure_path (k := 8));
       [apply layered_map; reflexivity | lia]|].
    apply Forall_app; split;
      [apply (layered_no_figure_path (k := 9));
       [apply layered_map; reflexivity | lia]|].
    apply Forall_app; split;
      [apply (layered_no_figure_path (k := 10));
       [apply layered_map; reflexivity | lia]|].
    apply Forall_app; split;
      [eapply layered_no_figure_path; [apply draw_texts_layered | lia]|].
    eapply layered_no_figure_path; [apply draw_credits_layered | lia].
  - eapply Permutation_Forall;
      [apply Permutation_sym, sorted_key_Permutation|].
    apply Forall_forall. intros figure Hf. apply filter_In in Hf.
    destruct Hf as [_ Hf]. apply Qltb_lt in Hf. exact Hf.
  - eapply Permutation_Forall;
      [apply Permutation_sym, sorted_key_Permutation|].
    apply Forall_forall. intros figure Hf. apply filter_In in Hf.
    destruct Hf as [_ Hf]. apply Qgeb_le in Hf. exact Hf.
  - eapply Permutation_trans;
      [apply Permutation_app; apply sorted_key_Permutation|].
    apply filter_split_Permutation. apply above_road_negb.
  - apply sorted_key_sorted.
  - apply sorted_key_sorted.
Qed.

(** ** C6 and C7: the passes over the points *)

Lemma StronglySorted_weaken {A : Type} (R S : A -> A -> Prop) (l : list A) :
  (forall a b, R a b -> S a b) -> StronglySorted R l -> StronglySorted S l.
Proof.
  intros H Hs. induction Hs as [|a l _ IH Hall]; constructor.
  - exact IH.
  - eapply Forall_impl; [|exact Hall]. intros b. apply H.
Qed.

(** A property of every call of [Map.draw] holds when it holds in each of its
    twelve parts. *)
Lemma draw_Forall (P : Call -> Prop) (I : Imports)
      (Segment_lt : Segment -> Segment -> bool) (self : Map)
      (constructor : Constructor) :
  P (svg_add_Rect (0%Q, 0%Q) (Flinger_size (Map_flinger self))
                  (Map_background_color self)) ->
  Forall P (Map.draw_figures self
              (filter below_road (get_sorted_figures constructor))) ->
  P (Roads_draw (Constructor_roads constructor)) ->
  Forall P (Map.draw_figures self
              (filter above_road (get_sorted_figures constructor))) ->
  Forall P (map Tree_draw (Constructor_trees constructor)) ->
  Forall P (map Crater_draw (Constructor_craters constructor)) ->
  Forall P (Map.draw_buildings I Segment_lt self constructor) ->
  Forall P (map DirectionSector_draw
                (Constructor_direction_sectors constructor)) ->
  Forall P (map (fun node => Point_draw_main_shapes node
                               (Map.make_occupied self))
                (Map.sorted_points constructor)) ->
  Forall P (map (fun point => Point_draw_extra_shapes point
                                (Map.make_occupied self))
                (Map.sorted_points constructor)) ->
  Forall P (Map.draw_texts self (Map.make_occupied self)
                           (Map.sorted_points constructor)) ->
  Forall P (Map.draw_credits I self
              (Flinger_size (Constructor_flinger constructor))) ->
  Forall P (Map.draw I Segment_lt self constructor).
Proof.
  intros. rewrite draw_unfold.
  apply Forall_app; split; [constructor; [assumption | constructor]|].
  apply Forall_app; split; [assumption|].
  apply Forall_app; split; [constructor; [assumption | constructor]|].
  apply Forall_app; split; [assumption|].
  apply Forall_app; split; [assumption|].
  apply Forall_app; split; [assumption|].
  apply Forall_app; split; [assumption|].
  apply Forall_app; split; [assumption|].
  apply Forall_app; split; [assumption|].
  apply Forall_app; split; [assumption|].
  apply Forall_app; split; assumption.
Qed.

Lemma layered_Forall (P : Call -> Prop) (k : nat) (calls : list Call) :
  (forall call, code_layer call = k -> P call) ->
  layered k calls -> Forall P calls.
Proof.
  intros H Hl. eapply Forall_impl; [|exact Hl]. exact H.
Qed.

Lemma not_point_icon_layer (call : Call) :
  code_layer call <> 9 -> code_layer call <> 10 ->
  is_point_icon call = false.
Proof.
  destruct call; simpl; intros; try reflexivity; congruence.
Qed.

(** C6, as the claim states it, fails: two points of equal priority are both
    kept, so the sorted sequence is not strictly descending. *)
Lemma C6_not_strictly_descending :
  ~ StronglySorted
      (fun a b : Point => (Point_priority b < Point_priority a)%Q)
      (Map.sorted_points Sample.two_points).
Proof.
  intro H. vm_compute in H.
  inversion H as [|? ? _ Hall]; subst.
  inversion Hall as [|? ? Hlt _]; subst.
  vm_compute in Hlt. discriminate.
Qed.

(** C6, amended: in the point-icon layer the points are sorted by descending
    priority, points of equal priority keeping their input order, and then
    processed in two complete passes over that single sorted sequence: first
    the main icon of every point is drawn, each call being handed the
    tracker when tracking is enabled; a failed claim (the call, in the state
    it is made in, draws nothing and claims nothing) skips only that icon
    and leaves every other icon placed as if the call had not been made;
    only after all main icons are done are the extra icons of every point
    drawn, in the same order.  No icon is drawn before or after the two
    passes. *)
Theorem C6_icons_in_two_passes
        (I : Imports) (Segment_lt : Segment -> Segment -> bool) (self : Map)
        (constructor : Constructor) :
  let nodes := Map.sorted_points constructor in
  let occupied := Map.make_occupied self in
  let main := fun node => Point_draw_main_shapes node occupied in
  let extra := fun point => Point_draw_extra_shapes point occupied in
  let before := calls_before_points I Segment_lt self constructor in
  let after := calls_after_points I self constructor in
  Permutation nodes (Constructor_points constructor)
  /\ StronglySorted
       (fun a b : Point => (Point_priority b <= Point_priority a)%Q) nodes
  /\ (forall v : Q,
         filter (fun p => Qeq_bool (Point_priority p) v) nodes
         = filter (fun p => Qeq_bool (Point_priority p) v)
                  (Constructor_points constructor))
  /\ Map.draw I Segment_lt self constructor
     = before ++ map main nodes ++ map extra nodes ++ after
  /\ Forall (fun call => is_point_icon call = false) before
  /\ Forall (fun call => is_point_icon call = false) after
  /\ forall (Prim World : Type)
            (perform : Call -> World -> list Prim * World)
            (world : World) (first rest : list Point) (node : Point),
      nodes = first ++ node :: rest ->
      perform (main node)
              (world_after perform (before ++ map main first) world)
      = ([], world_after perform (before ++ map main first) world) ->
      document perform (Map.draw I Segment_lt self constructor) world
      = document perform
          (before ++ map main (first ++ rest) ++ map extra nodes ++ after)
          world.
Proof.
  cbv zeta.
  assert (E : Map.draw I Segment_lt self constructor
              = calls_before_points I Segment_lt self constructor
                ++ map (fun node => Point_draw_main_shapes node
                                      (Map.make_occupied self))
                       (Map.sorted_points constructor)
                ++ map (fun point => Point_draw_extra_shapes point
                                       (Map.make_occupied self))
                       (Map.sorted_points constructor)
                ++ calls_after_points I self constructor).
  { rewrite draw_unfold. unfold calls_before_points, calls_after_points.
    rewrite <- !app_assoc. reflexivity. }
  split; [|split; [|split; [|split; [|split; [|split]]]]].
  - apply sorted_key_Permutation.
  - eapply StronglySorted_weaken;
      [|apply (sorted_key_sorted (fun x => (- Point_priority x)%Q))].
    intros a b H. unfold ascending_by in H. lra.
  - intro v. unfold Map.sorted_points. rewrite filter_sorted_key.
    apply sorted_key_same with (v := (- v)%Q).
    apply Forall_forall. intros p Hp. apply filter_In in Hp.
    destruct Hp as [_ Hp]. apply Qeq_bool_iff in Hp. rewrite Hp.
    reflexivity.
  - exact E.
  - unfold calls_before_points.
    apply Forall_app; split;
      [repeat constructor|].
    apply Forall_app; split;
      [eapply layered_Forall; [|apply draw_figures_below_layered];
       intros; apply not_point_icon_layer; lia|].
    apply Forall_app; split;
      [repeat constructor|].
    apply Forall_app; split;
      [eapply layered_Forall; [|apply draw_figures_above_layered];
       intros; apply not_point_icon_layer; lia|].
    apply Forall_app; split;
      [rewrite Forall_map; apply Forall_forall; reflexivity|].
    apply Forall_app; split;
      [rewrite Forall_map; apply Forall_forall; reflexivity|].
    apply Forall_app; split;
      [eapply layered_Forall; [|apply draw_buildings_layered];
       intros; apply not_point_icon_layer; lia|].
    rewrite Forall_map; apply Forall_forall; reflexivity.
  - unfold calls_after_points. apply Forall_app; split.
    + eapply layered_Forall; [|apply draw_texts_layered].
      intros; apply not_point_icon_layer; lia.
    + eapply layered_Forall; [|apply draw_credits_layered].
      intros; apply not_point_icon_layer; lia.
  - intros Prim World perform world first rest node Hn Hskip.
    rewrite E.
    generalize
      (map (fun point => Point_draw_extra_shapes point
                           (Map.make_occupied self))
           (Map.sorted_points constructor)
       ++ calls_after_points I self constructor).
    intro tail. rewrite Hn, !map_app. cbn [map].
    rewrite <- !app_assoc, <- app_comm_cons.
    rewrite (app_assoc (calls_before_points I Segment_lt self constructor)).
    rewrite (app_assoc (calls_before_points I Segment_lt self constructor)
                       _ (_ ++ tail)).
    apply document_skip_at. exact Hskip.
Qed.

(** On three points of which the second stands on the cell of the first, the
    claim of the second fails in the state the first leaves behind, and the
    document is the one drawn without the main icon of the second. *)
Lemma C6_icons_in_two_passes_witness :
  Map.sorted_points Sample.three_points
  = [Sample.point_a] ++ Sample.point_b :: [Sample.point_c]
  /\ Sample.tracker
       (Point_draw_main_shapes Sample.point_b (Map.make_occupied Sample.map))
       (world_after Sample.tracker
          (calls_before_points Sample.imports Sample.Segment_lt Sample.map
                               Sample.three_points
           ++ map (fun node => Point_draw_main_shapes
                                 node (Map.make_occupied Sample.map))
                  [Sample.point_a])
          [])
     = ([], [1])
  /\ document Sample.tracker
       (Map.draw Sample.imports Sample.Segment_lt Sample.map
                 Sample.three_points) []
     = document Sample.tracker
         (calls_before_points Sample.imports Sample.Segment_lt Sample.map
                              Sample.three_points
          ++ map (fun node => Point_draw_main_shapes
                                node (Map.make_occupied Sample.map))
                 ([Sample.point_a] ++ [Sample.point_c])
          ++ map (fun point => Point_draw_extra_shapes
                                 point (Map.make_occupied Sample.map))
                 (Map.sorted_points Sample.three_points)
          ++ calls_after_points Sample.imports Sample.map
                                Sample.three_points)
         [].
Proof.
  split; [reflexivity|]. split; [reflexivity|].
  destruct (C6_icons_in_two_passes Sample.imports Sample.Segment_lt
              Sample.map Sample.three_points)
    as [_ [_ [_ [_ [_ [_ Hskip]]]]]].
  apply (Hskip nat (list nat) Sample.tracker []
               [Sample.point_a] [Sample.point_c] Sample.point_b);
    reflexivity.
Defined.

(** The document of the three points on that tracker: the icons of the first
    and of the third point. *)
Example three_points_document :
  document Sample.tracker
    (Map.draw Sample.imports Sample.Segment_lt Sample.map
              Sample.three_points) []
  = [(Point_draw_main_shapes Sample.point_a (Map.make_occupied Sample.map),
      1);
     (Point_draw_main_shapes Sample.point_c (Map.make_occupied Sample.map),
      2)].
Proof.
  reflexivity.
Qed.

Lemma no_tracker_layer (call : Call) :
  code_layer call < 9 \/ 11 < code_layer call -> occupied_of call = None.
Proof.
  destruct call; simpl; intros; try reflexivity; lia.
Qed.

(** C7: with an overlap of 0 no tracker is made and every call that draws the
    icons or the label of a point is handed [None]; with any other overlap
    one tracker is made from the width and height of the canvas and the
    overlap, and every call of the main-icon, extra-icon and label passes is
    handed that tracker.  No other call of [Map.draw] takes a tracker. *)
Theorem C7_tracker_iff_overlap_nonzero
        (I : Imports) (Segment_lt : Segment -> Segment -> bool) (self : Map)
        (constructor : Constructor) :
  let overlap := MapConfiguration_overlap (Map_configuration self) in
  let size := Flinger_size (Map_flinger self) in
  let tracker :=
    if (overlap =? 0)%Z then None
    else Some {| Occupied_width := fst size;
                 Occupied_height := snd size;
                 Occupied_overlap := overlap |} in
  Map.make_occupied self = tracker
  /\ Forall (fun call =>
               match call with
               | Point_draw_main_shapes _ occupied => occupied = tracker
               | Point_draw_extra_shapes _ occupied => occupied = tracker
               | Point_draw_texts _ occupied _ => occupied = tracker
               | _ => occupied_of call = None
               end)
            (Map.draw I Segment_lt self constructor)
  /\ Forall (fun node =>
               In (Point_draw_main_shapes node tracker)
                  (Map.draw I Segment_lt self constructor)
               /\ In (Point_draw_extra_shapes node tracker)
                     (Map.draw I Segment_lt self constructor)
               /\ (if negb (MapConfiguration_is_wireframe
                              (Map_configuration self))
                      && negb (LabelMode_is_NO
                                 (MapConfiguration_label_mode
                                    (Map_configuration self)))
                   then In (Point_draw_texts node tracker
                              (MapConfiguration_label_mode
                                 (Map_configuration self)))
                           (Map.draw I Segment_lt self constructor)
                   else True))
            (Constructor_points constructor).
Proof.
  cbv zeta. split; [reflexivity|]. split.
  - apply draw_Forall.
    + reflexivity.
    + eapply layered_Forall; [|apply draw_figures_below_layered].
      intros call Hc. rewrite no_tracker_layer by lia.
      destruct call; reflexivity || discriminate.
    + reflexivity.
    + eapply layered_Forall; [|apply draw_figures_above_layered].
      intros call Hc. rewrite no_tracker_layer by lia.
      destruct call; reflexivity || discriminate.
    + rewrite Forall_map. apply Forall_forall. reflexivity.
    + rewrite Forall_map. apply Forall_forall. reflexivity.
    + eapply layered_Forall; [|apply draw_buildings_layered].
      intros call Hc. rewrite no_tracker_layer by lia.
      destruct call; reflexivity || discriminate.
    + rewrite Forall_map. apply Forall_forall. reflexivity.
    + rewrite Forall_map. apply Forall_forall. reflexivity.
    + rewrite Forall_map. apply Forall_forall. reflexivity.
    + unfold Map.draw_texts. apply Forall_flat_map. apply Forall_forall.
      intros point _. destruct (_ && _); repeat constructor.
    + eapply layered_Forall; [|apply draw_credits_layered].
      intros call Hc. rewrite no_tracker_layer by lia.
      destruct call; reflexivity || discriminate.
  - apply Forall_forall. intros node Hn.
    assert (Hs : In node (Map.sorted_points constructor)).
    { unfold Map.sorted_points, sorted_key. apply sorted_In. exact Hn. }
    rewrite draw_unfold. split; [|split].
    + do 8 (apply in_or_app; right). apply in_or_app. left.
      apply in_map_iff. exists node. split; [reflexivity | exact Hs].
    + do 9 (apply in_or_app; right). apply in_or_app. left.
      apply in_map_iff. exists node. split; [reflexivity | exact Hs].
    + destruct (_ && _) eqn:Hlabel; [|exact Logic.I].
      do 10 (apply in_or_app; right). apply in_or_app. left.
      unfold Map.draw_texts. apply in_flat_map. exists node.
      split; [exact Hs|]. rewrite Hlabel. left. reflexivity.
Qed.

(** ** Dictionaries *)

Section DictFacts.

Context {K V : Type}.
Variable K_eq_dec : forall a b : K, {a = b} + {a <> b}.

Lemma dict_get_set (k k' : K) (v : V) (d : list (K * V)) :
  dict_get K_eq_dec k' (dict_set K_eq_dec k v d)
  = if K_eq_dec k k' then Some v else dict_get K_eq_dec k' d.
Proof.
  induction d as [|[k0 v0] d IH]; simpl.
  - destruct (K_eq_dec k k'); reflexivity.
  - destruct (K_eq_dec k0 k) as [E|N]; simpl.
    + subst k0. destruct (K_eq_dec k k'); reflexivity.
    + destruct (K_eq_dec k0 k') as [E'|N'].
      * subst k0. destruct (K_eq_dec k k'); [congruence | reflexivity].
      * exact IH.
Qed.

Lemma dict_set_keys_In (k k' : K) (v : V) (d : list (K * V)) :
  In k' (dict_keys (dict_set K_eq_dec k v d))
  <-> k = k' \/ In k' (dict_keys d).
Proof.
  unfold dict_keys. induction d as [|[k0 v0] d IH]; simpl.
  - tauto.
  - destruct (K_eq_dec k0 k) as [E|N]; simpl.
    + subst k0. tauto.
    + rewrite IH. tauto.
Qed.

Lemma dict_set_keys_NoDup (k : K) (v : V) (d : list (K * V)) :
  NoDup (dict_keys d) -> NoDup (dict_keys (dict_set K_eq_dec k v d)).
Proof.
  unfold dict_keys. induction d as [|[k0 v0] d IH]; simpl; intro H.
  - constructor; [intros [] | constructor].
  - inversion H as [|? ? Hnot Hd]; subst.
    destruct (K_eq_dec k0 k) as [E|N]; simpl.
    + constructor; assumption.
    + constructor; [|apply IH; exact Hd].
      intro Hin. apply (dict_set_keys_In k k0 v d) in Hin.
      destruct Hin as [E|Hin]; [congruence | contradiction].
Qed.

Lemma dict_get_Some_In (k : K) (v : V) (d : list (K * V)) :
  dict_get K_eq_dec k d = Some v -> In k (dict_keys d).
Proof.
  unfold dict_keys. induction d as [|[k0 v0] d IH]; simpl; [discriminate|].
  destruct (K_eq_dec k0 k); [left; assumption | right; auto].
Qed.

Lemma dict_get_None_not_In (k : K) (d : list (K * V)) :
  dict_get K_eq_dec k d = None -> ~ In k (dict_keys d).
Proof.
  unfold dict_keys. induction d as [|[k0 v0] d IH]; simpl; [tauto|].
  destruct (K_eq_dec k0 k); [discriminate|].
  intros H [E|Hin]; [congruence | exact (IH H Hin)].
Qed.

End DictFacts.

(** ** The [walls] dictionary *)

Lemma owner_find (buildings : list Building) (wall : Segment) :
  owner buildings wall = find (has_part wall) (rev buildings).
Proof.
  reflexivity.
Qed.

Lemma find_app {A : Type} (p : A -> bool) (l1 l2 : list A) :
  find p (l1 ++ l2)
  = match find p l1 with
    | Some a => Some a
    | None => find p l2
    end.
Proof.
  induction l1 as [|a l1 IH]; simpl; [reflexivity|].
  destruct (p a); [reflexivity | exact IH].
Qed.

Lemma add_parts_get (building : Building) (wall : Segment)
      (parts : list Segment) (walls : list (Segment * Building)) :
  dict_get Segment_eq_dec wall
    (fold_left (fun walls part => dict_set Segment_eq_dec part building walls)
               parts walls)
  = if in_dec Segment_eq_dec wall parts then Some building
    else dict_get Segment_eq_dec wall walls.
Proof.
  revert walls. induction parts as [|part parts IH]; intro walls; simpl.
  - reflexivity.
  - rewrite IH, dict_get_set.
    destruct (in_dec Segment_eq_dec wall parts) as [Hin|Hnot].
    + destruct (Segment_eq_dec part wall); reflexivity.
    + destruct (Segment_eq_dec part wall); reflexivity.
Qed.

Lemma add_parts_NoDup (building : Building) (parts : list Segment)
      (walls : list (Segment * Building)) :
  NoDup (dict_keys walls) ->
  NoDup (dict_keys
           (fold_left
              (fun walls part => dict_set Segment_eq_dec part building walls)
              parts walls)).
Proof.
  revert walls. induction parts as [|part parts IH]; intros walls H; simpl.
  - exact H.
  - apply IH. apply dict_set_keys_NoDup. exact H.
Qed.

Lemma collect_from_get (buildings : list Building) (wall : Segment)
      (walls : list (Segment * Building)) :
  dict_get Segment_eq_dec wall
    (fold_left
       (fun walls building =>
          fold_left
            (fun walls part => dict_set Segment_eq_dec part building walls)
            (Building_parts building) walls)
       buildings walls)
  = match owner buildings wall with
    | Some building => Some building
    | None => dict_get Segment_eq_dec wall walls
    end.
Proof.
  revert walls. induction buildings as [|building buildings IH];
    intro walls; simpl.
  - reflexivity.
  - rewrite IH, add_parts_get, (owner_find (building :: buildings)).
    simpl rev. rewrite find_app.
    rewrite <- owner_find. destruct (owner buildings wall); [reflexivity|].
    simpl. unfold has_part.
    destruct (in_dec Segment_eq_dec wall (Building_parts building));
      reflexivity.
Qed.

(** The entry of a wall is its owner. *)
Lemma collect_walls_get (buildings : list Building) (wall : Segment) :
  dict_get Segment_eq_dec wall (Map.collect_walls buildings)
  = owner buildings wall.
Proof.
  unfold Map.collect_walls. rewrite collect_from_get.
  destruct (owner buildings wall); reflexivity.
Qed.

Lemma collect_walls_NoDup (buildings : list Building) :
  NoDup (dict_keys (Map.collect_walls buildings)).
Proof.
  unfold Map.collect_walls.
  assert (H : forall walls : list (Segment * Building),
             NoDup (dict_keys walls) ->
             NoDup (dict_keys
                      (fold_left
                         (fun walls building =>
                            fold_left
                              (fun walls part =>
                                 dict_set Segment_eq_dec part building walls)
                              (Building_parts building) walls)
                         buildings walls))).
  { induction buildings as [|building buildings IH]; intros walls H; simpl.
    - exact H.
    - apply IH. apply add_parts_NoDup. exact H. }
  apply H. constructor.
Qed.

Lemma owner_Some_key (buildings : list Building) (wall : Segment)
      (building : Building) :
  owner buildings wall = Some building ->
  In wall (dict_keys (Map.collect_walls buildings)).
Proof.
  intro H. rewrite <- collect_walls_get in H.
  eapply dict_get_Some_In. exact H.
Qed.

(** The owner of a wall is a building of the input that has the wall among
    its parts, and every part of every building has an owner. *)
Lemma owner_Some (buildings : list Building) (wall : Segment)
      (building : Building) :
  owner buildings wall = Some building ->
  In building buildings /\ In wall (Building_parts building).
Proof.
  rewrite owner_find. intro H. apply find_some in H. destruct H as [Hin Hp].
  split; [apply in_rev; exact Hin|].
  unfold has_part in Hp.
  destruct (in_dec Segment_eq_dec wall (Building_parts building));
    [assumption | discriminate].
Qed.

Lemma part_has_owner (buildings : list Building) (wall : Segment)
      (building : Building) :
  In building buildings -> In wall (Building_parts building) ->
  exists last, owner buildings wall = Some last.
Proof.
  intros Hb Hw. rewrite owner_find.
  destruct (find (has_part wall) (rev buildings)) as [last|] eqn:E.
  - exists last. reflexivity.
  - exfalso. assert (F : has_part wall building = false).
    { apply (find_none _ _ E building). apply in_rev in Hb. exact Hb. }
    unfold has_part in F.
    destruct (in_dec Segment_eq_dec wall (Building_parts building));
      [discriminate | contradiction].
Qed.

(** ** The height slices *)

Lemma Qgeb_false (x y : Q) : Qgeb x y = false <-> (x < y)%Q.
Proof.
  rewrite Qgeb_negb_Qltb. rewrite <- Qltb_lt.
  destruct (Qltb x y); simpl; split; congruence.
Qed.

Lemma sorted_heights_sorted (heights : list Q) :
  StronglySorted Qle (sorted Qltb heights).
Proof.
  exact (sorted_key_sorted (fun height : Q => height) heights).
Qed.

Section Slices.

Variables (I : Imports) (self : Map) (scale : Q).
Variables (buildings : list Building) (walls : list (Segment * Building)).
Variable sorted_walls : list Segment.

(** A wall is drawn in a slice when it is a sorted key, for the building of
    its entry, under the two height tests of the loop. *)
Lemma draw_slice_walls_In (building : Building) (wall : Segment)
      (height previous h : Q) (s1 s2 : Vec) :
  In (draw_walls building wall height s1 s2)
     (Map.draw_slice_walls I scale walls sorted_walls previous h)
  <-> In wall sorted_walls
      /\ dict_get Segment_eq_dec wall walls = Some building
      /\ (h <= Building_height building)%Q
      /\ (Building_min_height building < h)%Q
      /\ height = h
      /\ s1 = Map.shift I scale previous
      /\ s2 = Map.shift I scale h.
Proof.
  unfold Map.draw_slice_walls. rewrite in_flat_map. split.
  - intros [wall' [Hin Hcall]].
    destruct (dict_get Segment_eq_dec wall' walls) as [owner'|] eqn:Hget;
      [|destruct Hcall].
    destruct (Qltb (Building_height owner') h) eqn:Hh; [destruct Hcall|].
    destruct (Qgeb (Building_min_height owner') h) eqn:Hm; [destruct Hcall|].
    simpl in Hcall. destruct Hcall as [E|[]]. injection E as -> -> -> -> ->.
    apply Qltb_ge in Hh. apply Qgeb_false in Hm. tauto.
  - intros [Hin [Hget [Hh [Hm [-> [-> ->]]]]]]. exists wall.
    split; [exact Hin|]. rewrite Hget.
    apply Qltb_ge in Hh. apply Qgeb_false in Hm. rewrite Hh, Hm.
    left. reflexivity.
Qed.

Lemma draw_slice_roofs_no_wall (height : Q) :
  Forall (fun call => is_wall call = false)
         (Map.draw_slice_roofs self scale buildings height).
Proof.
  unfold Map.draw_slice_roofs.
  destruct (MapConfiguration_draw_roofs _); [|constructor].
  apply Forall_flat_map. apply Forall_forall. intros building _.
  destruct (Qeq_bool _ _); repeat constructor.
Qed.

Lemma draw_slice_In (building : Building) (wall : Segment)
      (height previous h : Q) (s1 s2 : Vec) :
  In (draw_walls building wall height s1 s2)
     (Map.draw_slice I self scale buildings walls sorted_walls previous h)
  <-> In (draw_walls building wall height s1 s2)
         (Map.draw_slice_walls I scale walls sorted_walls previous h).
Proof.
  unfold Map.draw_slice. rewrite in_app_iff. split; [|tauto].
  intros [H|H]; [exact H|]. exfalso.
  pose proof (draw_slice_roofs_no_wall h) as Hno.
  rewrite Forall_forall in Hno. specialize (Hno _ H). discriminate.
Qed.

Lemma draw_slices_In_inv (building : Building) (wall : Segment)
      (height : Q) (s1 s2 : Vec) (heights : list Q) (previous : Q) :
  In (draw_walls building wall height s1 s2)
     (Map.draw_slices I self scale buildings walls sorted_walls previous
                      heights) ->
  In height heights
  /\ In wall sorted_walls
  /\ dict_get Segment_eq_dec wall walls = Some building
  /\ (height <= Building_height building)%Q
  /\ (Building_min_height building < height)%Q.
Proof.
  revert previous. induction heights as [|h rest IH]; intro previous; simpl.
  - intros [].
  - rewrite in_app_iff. intros [H|H].
    + apply draw_slice_In, draw_slice_walls_In in H.
      destruct H as [Hin [Hget [Hh [Hm [-> _]]]]]. tauto.
    + apply IH in H. tauto.
Qed.

Lemma draw_slices_In_intro (building : Building) (wall : Segment)
      (height : Q) (heights : list Q) (previous : Q) :
  In height heights ->
  In wall sorted_walls ->
  dict_get Segment_eq_dec wall walls = Some building ->
  (height <= Building_height building)%Q ->
  (Building_min_height building < height)%Q ->
  exists before,
    In (draw_walls building wall height (Map.shift I scale before)
                   (Map.shift I scale height))
       (Map.draw_slices I self scale buildings walls sorted_walls previous
                        heights).
Proof.
  intros Hh Hw Hget Hle Hlt. revert previous.
  induction heights as [|h rest IH]; intro previous; simpl.
  - destruct Hh.
  - destruct Hh as [->|Hh].
    + exists previous. apply in_or_app. left.
      apply draw_slice_In, draw_slice_walls_In. tauto.
    + destruct (IH Hh h) as [before Hin]. exists before.
      apply in_or_app. right. exact Hin.
Qed.

(** Every level between a reached height and a later height inside the
    building lies in a slice that is drawn. *)
Lemma draw_slices_cover (building : Building) (wall : Segment) (x : Q)
      (heights : list Q) (previous : Q) :
  StronglySorted Qle heights ->
  In wall sorted_walls ->
  dict_get Segment_eq_dec wall walls = Some building ->
  (previous <= x)%Q \/ (exists h1, In h1 heights /\ (h1 <= x)%Q) ->
  (exists h2, In h2 heights /\ (x < h2)%Q
              /\ (h2 <= Building_height building)%Q) ->
  (Building_min_height building <= x)%Q ->
  exists before height,
    In (draw_walls building wall height (Map.shift I scale before)
                   (Map.shift I scale height))
       (Map.draw_slices I self scale buildings walls sorted_walls previous
                        heights)
    /\ (before <= x)%Q /\ (x < height)%Q.
Proof.
  intros Hs Hw Hget. revert previous.
  induction Hs as [|h rest Hs IH Hall]; intros previous Hlow Hup Hmin.
  - destruct Hup as [h2 [[] _]].
  - rewrite Forall_forall in Hall. simpl.
    destruct (Qlt_le_dec x h) as [Hxh|Hhx].
    + assert (Hprev : (previous <= x)%Q).
      { destruct Hlow as [Hp|[h1 [[->|Hin] Hle]]].
        - exact Hp.
        - exfalso. exact (Qle_not_lt _ _ Hle Hxh).
        - exfalso. apply Hall in Hin.
          apply (Qle_not_lt _ _ (Qle_trans _ _ _ Hin Hle) Hxh). }
      assert (Hheight : (h <= Building_height building)%Q).
      { destruct Hup as [h2 [[->|Hin] [_ Hle]]].
        - exact Hle.
        - apply Hall in Hin. eapply Qle_trans; eassumption. }
      exists previous, h. split; [|split; assumption].
      apply in_or_app. left. apply draw_slice_In, draw_slice_walls_In.
      repeat split; try assumption; try reflexivity.
      eapply Qle_lt_trans; eassumption.
    + destruct (IH h) as [before [height [Hin [Hb Hx]]]].
      * left. exact Hhx.
      * destruct Hup as [h2 [[->|Hin] [Hlt Hle]]].
        -- exfalso. exact (Qle_not_lt _ _ Hhx Hlt).
        -- exists h2. tauto.
      * exact Hmin.
      * exists before, height. split; [|split; assumption].
        apply in_or_app. right. exact Hin.
Qed.

End Slices.

(** ** C3: which walls a slice draws *)

Lemma draws_wall_at_true (wall : Segment) (height : Q) (call : Call) :
  draws_wall_at wall height call = true
  <-> exists building height' s1 s2,
        call = draw_walls building wall height' s1 s2
        /\ (height' == height)%Q.
Proof.
  split.
  - destruct call; simpl; try discriminate. intro H.
    apply andb_true_iff in H. destruct H as [Hw Hh].
    destruct (Segment_eq_dec wall wall0) as [<-|]; [|discriminate].
    apply Qeq_bool_iff in Hh. do 4 eexists. split; [reflexivity | exact Hh].
  - intros [building [height' [s1 [s2 [-> Hh]]]]]. simpl.
    destruct (Segment_eq_dec wall wall); [|congruence].
    apply Qeq_bool_iff in Hh. rewrite Hh. reflexivity.
Qed.

(** C3, as the claim states it, fails: the tower and its annex share a wall,
    the wall is drawn for the annex (height 2) only, and at the slice that
    ends at 10 the tower's wall is not drawn although the tower reaches 10. *)
Lemma C3_shared_wall_follows_one_building :
  ~ walls_follow_every_building
      (Map.draw_buildings Sample.imports Sample.Segment_lt Sample.map
                          Sample.shared_wall)
      Sample.shared_wall.
Proof.
  intro H.
  assert (Hb : In Sample.tower (Constructor_buildings Sample.shared_wall))
    by (left; reflexivity).
  assert (Hw : In Sample.wall (Building_parts Sample.tower))
    by (left; reflexivity).
  assert (Hh : In 10%Q (Constructor_heights Sample.shared_wall))
    by (left; reflexivity).
  destruct (H Sample.tower Sample.wall 10%Q Hb Hw Hh) as [_ Hdrawn].
  assert (Hno : wall_drawn_at Sample.wall 10
                  (Map.draw_buildings Sample.imports Sample.Segment_lt
                                      Sample.map Sample.shared_wall)
                = false) by (vm_compute; reflexivity).
  rewrite Hdrawn in Hno; [discriminate|].
  split; [apply Qle_refl | reflexivity].
Qed.

(** C3, amended: in the extrusion pass a wall segment is drawn at a height
    slice if and only if the building that owns it (the last building, in
    input order, that lists the segment) has a height greater than or equal
    to the slice height and a minimum height strictly below it, and it is
    drawn for that building; consequently, for any two recorded heights
    h1 < h2 between the minimum height and the height of the owner, the
    slices drawn for the segment leave no level of [h1, h2) uncovered. *)
Theorem C3_walls_follow_owner
        (I : Imports) (Segment_lt : Segment -> Segment -> bool) (self : Map)
        (constructor : Constructor) (name : string) :
  MapConfiguration_building_mode (Map_configuration self)
  = BuildingMode_other name ->
  let calls := Map.draw_buildings I Segment_lt self constructor in
  walls_follow_owner calls constructor
  /\ walls_drawn_for_owner calls constructor
  /\ bands_covered I (Flinger_get_scale (Map_flinger self) None) calls
                   constructor.
Proof.
  intros Hmode calls. unfold calls, Map.draw_buildings. rewrite Hmode.
  clear calls. split; [|split].
  - intros wall height Hheight. unfold wall_drawn_at.
    rewrite existsb_exists. split.
    + intros [call [Hin Hcall]]. apply draws_wall_at_true in Hcall.
      destruct Hcall as [building [height' [s1 [s2 [-> Heq]]]]].
      destruct Hin as [Hin|Hin]; [discriminate|].
      apply draw_slices_In_inv in Hin.
      destruct Hin as [_ [_ [Hget [Hle Hlt]]]].
      rewrite collect_walls_get in Hget. exists building.
      rewrite <- Heq. tauto.
    + intros [building [Howner [Hle Hlt]]].
      destruct (@draw_slices_In_intro I self
                  (Flinger_get_scale (Map_flinger self) None)
                  (Constructor_buildings constructor)
                  (Map.collect_walls (Constructor_buildings constructor))
                  (sorted Segment_lt
                     (dict_keys
                        (Map.collect_walls
                           (Constructor_buildings constructor))))
                  building wall height
                  (sorted Qltb (Constructor_heights constructor)) 0)
        as [before Hin].
      * apply sorted_In. exact Hheight.
      * apply sorted_In. eapply owner_Some_key. exact Howner.
      * rewrite collect_walls_get. exact Howner.
      * exact Hle.
      * exact Hlt.
      * eexists. split; [right; exact Hin|].
        apply draws_wall_at_true. do 4 eexists.
        split; [reflexivity | apply Qeq_refl].
  - unfold walls_drawn_for_owner. apply Forall_forall. intros call Hin.
    destruct call; try exact Logic.I.
    destruct Hin as [Hin|Hin]; [discriminate|].
    apply draw_slices_In_inv in Hin. destruct Hin as [_ [_ [Hget _]]].
    rewrite collect_walls_get in Hget. exact Hget.
  - intros wall building h1 h2 x Howner Hh1 Hh2 Hmin Hmax Hlow Hup.
    destruct (@draw_slices_cover I self
                (Flinger_get_scale (Map_flinger self) None)
                (Constructor_buildings constructor)
                (Map.collect_walls (Constructor_buildings constructor))
                (sorted Segment_lt
                   (dict_keys
                      (Map.collect_walls (Constructor_buildings constructor))))
                building wall x
                (sorted Qltb (Constructor_heights constructor)) 0)
      as [before [height [Hin Hx]]].
    + apply sorted_heights_sorted.
    + apply sorted_In. eapply owner_Some_key. exact Howner.
    + rewrite collect_walls_get. exact Howner.
    + right. exists h1. split; [apply sorted_In; exact Hh1 | exact Hlow].
    + exists h2. split; [apply sorted_In; exact Hh2 | tauto].
    + eapply Qle_trans; eassumption.
    + exists before, height. split; [right; exact Hin | exact Hx].
Qed.

(** The amended C3 at the tower and its annex. *)
Lemma C3_walls_follow_owner_witness :
  MapConfiguration_building_mode (Map_configuration Sample.map)
  = BuildingMode_other "ISOMETRIC"
  /\ (let calls := Map.draw_buildings Sample.imports Sample.Segment_lt
                                      Sample.map Sample.shared_wall in
      walls_follow_owner calls Sample.shared_wall
      /\ walls_drawn_for_owner calls Sample.shared_wall
      /\ bands_covered Sample.imports
                       (Flinger_get_scale (Map_flinger Sample.map) None)
                       calls Sample.shared_wall).
Proof.
  split; [reflexivity|].
  apply (C3_walls_follow_owner Sample.imports Sample.Segment_lt Sample.map
                               Sample.shared_wall (name := "ISOMETRIC")).
  reflexivity.
Defined.

(** ** C4: a shared wall is drawn once *)

Lemma filter_length_Permutation {A : Type} (p : A -> bool) (l l' : list A) :
  Permutation l l' ->
  List.length (filter p l) = List.length (filter p l').
Proof.
  induction 1 as [|a l l' _ IH|a b l|l l' l'' _ IH1 _ IH2]; simpl.
  - reflexivity.
  - destruct (p a); simpl; rewrite IH; reflexivity.
  - destruct (p a); destruct (p b); reflexivity.
  - rewrite IH1. exact IH2.
Qed.

Lemma times_wall_drawn_at_app (wall : Segment) (height : Q)
      (l1 l2 : list Call) :
  times_wall_drawn_at wall height (l1 ++ l2)
  = times_wall_drawn_at wall height l1 + times_wall_drawn_at wall height l2.
Proof.
  unfold times_wall_drawn_at. rewrite filter_app, length_app. reflexivity.
Qed.

Lemma times_wall_drawn_at_no_wall (wall : Segment) (height : Q)
      (calls : list Call) :
  Forall (fun call => is_wall call = false) calls ->
  times_wall_drawn_at wall height calls = 0.
Proof.
  unfold times_wall_drawn_at. induction 1 as [|call calls Hc _ IH]; simpl.
  - reflexivity.
  - destruct call; simpl in *; try exact IH. discriminate.
Qed.

Lemma times_in_slice_walls (I : Imports) (scale : Q)
      (walls : list (Segment * Building)) (sorted_walls : list Segment)
      (previous h : Q) (wall : Segment) (height : Q) :
  times_wall_drawn_at wall height
    (Map.draw_slice_walls I scale walls sorted_walls previous h)
  <= if Qeq_bool h height then count_occ Segment_eq_dec sorted_walls wall
     else 0.
Proof.
  unfold Map.draw_slice_walls.
  induction sorted_walls as [|wall' rest IH].
  - simpl. destruct (Qeq_bool h height); apply Nat.le_refl.
  - cbn [flat_map]. rewrite times_wall_drawn_at_app.
    assert (Hone : times_wall_drawn_at wall height
                     match dict_get Segment_eq_dec wall' walls with
                     | Some building =>
                         if Qltb (Building_height building) h
                            || Qgeb (Building_min_height building) h
                         then []
                         else [draw_walls building wall' h
                                          (Map.shift I scale previous)
                                          (Map.shift I scale h)]
                     | None => []
                     end
                   <= if Qeq_bool h height
                      then if Segment_eq_dec wall' wall then 1 else 0
                      else 0).
    { destruct (dict_get Segment_eq_dec wall' walls) as [building|];
        [|destruct (Qeq_bool h height); [destruct (Segment_eq_dec wall' wall)|];
          apply Nat.le_0_l].
      destruct (_ || _);
        [destruct (Qeq_bool h height); [destruct (Segment_eq_dec wall' wall)|];
         apply Nat.le_0_l|].
      unfold times_wall_drawn_at. simpl.
      destruct (Segment_eq_dec wall wall') as [E|N];
        destruct (Segment_eq_dec wall' wall) as [E'|N'];
        destruct (Qeq_bool h height); simpl; try lia; congruence. }
    cbn [count_occ].
    destruct (Qeq_bool h height); destruct (Segment_eq_dec wall' wall); lia.
Qed.

Lemma times_in_slice (I : Imports) (self : Map) (scale : Q)
      (buildings : list Building) (walls : list (Segment * Building))
      (sorted_walls : list Segment) (previous h : Q) (wall : Segment)
      (height : Q) :
  NoDup sorted_walls ->
  times_wall_drawn_at wall height
    (Map.draw_slice I self scale buildings walls sorted_walls previous h)
  <= if Qeq_bool h height then 1 else 0.
Proof.
  intro Hnodup. unfold Map.draw_slice. rewrite times_wall_drawn_at_app.
  rewrite (times_wall_drawn_at_no_wall wall height
             (draw_slice_roofs_no_wall self scale buildings h)).
  pose proof (times_in_slice_walls I scale walls sorted_walls previous h
                                   wall height) as Hw.
  pose proof (proj1 (NoDup_count_occ Segment_eq_dec sorted_walls) Hnodup wall)
    as Hc.
  destruct (Qeq_bool h height); lia.
Qed.

Lemma times_in_slices (I : Imports) (self : Map) (scale : Q)
      (buildings : list Building) (walls : list (Segment * Building))
      (sorted_walls : list Segment) (heights : list Q) (previous : Q)
      (wall : Segment) (height : Q) :
  NoDup sorted_walls ->
  times_wall_drawn_at wall height
    (Map.draw_slices I self scale buildings walls sorted_walls previous
                     heights)
  <= List.length (filter (fun h => Qeq_bool h height) heights).
Proof.
  intro Hnodup. revert previous.
  induction heights as [|h rest IH]; intro previous; simpl.
  - apply Nat.le_refl.
  - rewrite times_wall_drawn_at_app.
    pose proof (times_in_slice I self scale buildings walls previous h wall
                               height Hnodup) as Hs.
    specialize (IH h). destruct (Qeq_bool h height); simpl; lia.
Qed.

Lemma sorted_walls_NoDup (Segment_lt : Segment -> Segment -> bool)
      (buildings : list Building) :
  NoDup (sorted Segment_lt (dict_keys (Map.collect_walls buildings))).
Proof.
  apply sorted_NoDup. apply collect_walls_NoDup.
Qed.

(** C4: the walls are gathered in a dictionary keyed by the segment before
    the slices are drawn: the sorted keys hold every part of every building
    exactly once, however many buildings share it; at every height slice a
    segment is drawn at most once; and over the whole pass a segment is drawn
    at a slice height at most as many times as that height is recorded (once,
    for a set of heights). *)
Theorem C4_shared_wall_drawn_once
        (I : Imports) (Segment_lt : Segment -> Segment -> bool) (self : Map)
        (constructor : Constructor) :
  let buildings := Constructor_buildings constructor in
  let walls := Map.collect_walls buildings in
  let sorted_walls := sorted Segment_lt (dict_keys walls) in
  NoDup sorted_walls
  /\ (forall wall,
         In wall sorted_walls
         <-> exists building,
               In building buildings /\ In wall (Building_parts building))
  /\ (forall (wall : Segment) (scale previous height : Q),
         times_wall_drawn_at wall height
           (Map.draw_slice I self scale buildings walls sorted_walls
                           previous height)
         <= 1)
  /\ (forall (wall : Segment) (height : Q),
         times_wall_drawn_at wall height
           (Map.draw_buildings I Segment_lt self constructor)
         <= List.length (filter (fun h => Qeq_bool h height)
                                (Constructor_heights constructor))).
Proof.
  cbv zeta. split; [apply sorted_walls_NoDup|]. split; [|split].
  - intro wall. rewrite sorted_In. split.
    + intro Hin.
      destruct (dict_get Segment_eq_dec wall
                  (Map.collect_walls (Constructor_buildings constructor)))
        as [building|] eqn:Hget.
      * rewrite collect_walls_get in Hget. exists building.
        apply owner_Some. exact Hget.
      * exfalso. exact (dict_get_None_not_In _ _ _ Hget Hin).
    + intros [building [Hb Hw]].
      destruct (part_has_owner _ _ _ Hb Hw) as [last Hlast].
      eapply owner_Some_key. exact Hlast.
  - intros wall scale previous height.
    pose proof (times_in_slice I self scale
                  (Constructor_buildings constructor)
                  (Map.collect_walls (Constructor_buildings constructor))
                  previous height wall height
                  (sorted_walls_NoDup Segment_lt
                     (Constructor_buildings constructor))) as H.
    destruct (Qeq_bool height height); lia.
  - intros wall height. unfold Map.draw_buildings.
    destruct (MapConfiguration_building_mode (Map_configuration self)).
    + apply Nat.le_0_l.
    + rewrite times_wall_drawn_at_no_wall; [apply Nat.le_0_l|].
      rewrite Forall_map. apply Forall_forall. reflexivity.
    + change (svg_add_shade (Constructor_buildings constructor) :: ?l)
        with ([svg_add_shade (Constructor_buildings constructor)] ++ l).
      rewrite times_wall_drawn_at_app.
      rewrite (filter_length_Permutation _
                 (Permutation_sym
                    (sorted_Permutation Qltb
                       (Constructor_heights constructor)))).
      pose proof (times_in_slices I self
                    (Flinger_get_scale (Map_flinger self) None)
                    (Constructor_buildings constructor)
                    (Map.collect_walls (Constructor_buildings constructor))
                    (sorted Qltb (Constructor_heights constructor)) 0
                    wall height
                    (sorted_walls_NoDup Segment_lt
                       (Constructor_buildings constructor))) as H.
      simpl. exact H.
Qed.

(** ** C10: roofs *)

Lemma draw_slice_roofs_roofs_at (self : Map) (scale : Q)
      (buildings : list Building) (height : Q) :
  Map.draw_slice_roofs self scale buildings height
  = if MapConfiguration_draw_roofs (Map_configuration self)
    then roofs_at scale buildings height
    else [].
Proof.
  unfold Map.draw_slice_roofs, roofs_at.
  destruct (MapConfiguration_draw_roofs _); [|reflexivity].
  induction buildings as [|building buildings IH]; simpl; [reflexivity|].
  destruct (Qeq_bool _ _); simpl; rewrite IH; reflexivity.
Qed.

Lemma draw_slice_walls_walls (I : Imports) (scale : Q)
      (walls : list (Segment * Building)) (sorted_walls : list Segment)
      (previous height : Q) :
  Forall (fun call => is_wall call = true)
         (Map.draw_slice_walls I scale walls sorted_walls previous height).
Proof.
  unfold Map.draw_slice_walls. apply Forall_flat_map. apply Forall_forall.
  intros wall _. destruct (dict_get _ _ _); [|constructor].
  destruct (_ || _); repeat constructor.
Qed.

Lemma draw_slices_walls_then_roofs (I : Imports) (self : Map) (scale : Q)
      (buildings : list Building) (walls : list (Segment * Building))
      (sorted_walls : list Segment) (heights : list Q) (previous : Q) :
  exists wall_calls : list (list Call),
    List.length wall_calls = List.length heights
    /\ Forall (Forall (fun call => is_wall call = true)) wall_calls
    /\ Map.draw_slices I self scale buildings walls sorted_walls previous
                       heights
       = flat_map
           (fun slice : list Call * Q =>
              fst slice
              ++ (if MapConfiguration_draw_roofs (Map_configuration self)
                  then roofs_at scale buildings (snd slice)
                  else []))
           (combine wall_calls heights).
Proof.
  revert previous. induction heights as [|height rest IH]; intro previous.
  - exists []. repeat split. constructor.
  - destruct (IH height) as [wall_calls [Hlen [Hwalls Heq]]].
    exists (Map.draw_slice_walls I scale walls sorted_walls previous height
            :: wall_calls).
    split; [simpl; rewrite Hlen; reflexivity|].
    split; [constructor; [apply draw_slice_walls_walls | exact Hwalls]|].
    simpl. rewrite Heq. unfold Map.draw_slice.
    rewrite draw_slice_roofs_roofs_at. rewrite <- app_assoc. reflexivity.
Qed.

Lemma draw_slices_no_roof (I : Imports) (self : Map) (scale : Q)
      (buildings : list Building) (walls : list (Segment * Building))
      (sorted_walls : list Segment) (heights : list Q) (previous : Q) :
  MapConfiguration_draw_roofs (Map_configuration self) = false ->
  Forall (fun call => is_roof call = false)
         (Map.draw_slices I self scale buildings walls sorted_walls previous
                          heights).
Proof.
  intro Hflag. revert previous.
  induction heights as [|height rest IH]; intro previous; simpl.
  - constructor.
  - unfold Map.draw_slice. rewrite draw_slice_roofs_roofs_at, Hflag.
    rewrite app_nil_r. apply Forall_app. split; [|apply IH].
    eapply Forall_impl; [|apply draw_slice_walls_walls].
    intros call Hc. destruct call; try discriminate. reflexivity.
Qed.

(** C10: with [draw_roofs] off the building pass draws no roof at all; with
    it on, the extrusion pass draws the shade and then, for each height in
    ascending order, the walls of the slice followed by the roof of every
    building whose height equals the slice height.  The flat pass and the
    disabled pass draw no roof either way. *)
Theorem C10_roofs_gated_by_draw_roofs
        (I : Imports) (Segment_lt : Segment -> Segment -> bool) (self : Map)
        (constructor : Constructor) :
  let buildings := Constructor_buildings constructor in
  let scale := Flinger_get_scale (Map_flinger self) None in
  let heights := sorted Qltb (Constructor_heights constructor) in
  let draw_roofs := MapConfiguration_draw_roofs (Map_configuration self) in
  let calls := Map.draw_buildings I Segment_lt self constructor in
  (if draw_roofs then True
   else Forall (fun call => is_roof call = false) calls)
  /\ StronglySorted Qle heights
  /\ match MapConfiguration_building_mode (Map_configuration self) with
     | BuildingMode_other _ =>
         exists wall_calls : list (list Call),
           List.length wall_calls = List.length heights
           /\ Forall (Forall (fun call => is_wall call = true)) wall_calls
           /\ calls
              = svg_add_shade buildings
                :: flat_map
                     (fun slice : list Call * Q =>
                        fst slice
                        ++ (if draw_roofs
                            then roofs_at scale buildings (snd slice)
                            else []))
                     (combine wall_calls heights)
     | _ => Forall (fun call => is_roof call = false) calls
     end.
Proof.
  cbv zeta. split; [|split; [apply sorted_heights_sorted|]].
  - destruct (MapConfiguration_draw_roofs (Map_configuration self)) eqn:Hflag;
      [exact Logic.I|].
    unfold Map.draw_buildings.
    destruct (MapConfiguration_building_mode (Map_configuration self)).
    + constructor.
    + rewrite Forall_map. apply Forall_forall. reflexivity.
    + constructor; [reflexivity|]. apply draw_slices_no_roof. exact Hflag.
  - unfold Map.draw_buildings.
    destruct (MapConfiguration_building_mode (Map_configuration self)).
    + constructor.
    + rewrite Forall_map. apply Forall_forall. reflexivity.
    + destruct (draw_slices_walls_then_roofs I self
                  (Flinger_get_scale (Map_flinger self) None)
                  (Constructor_buildings constructor)
                  (Map.collect_walls (Constructor_buildings constructor))
                  (sorted Segment_lt
                     (dict_keys
                        (Map.collect_walls
                           (Constructor_buildings constructor))))
                  (sorted Qltb (Constructor_heights constructor)) 0)
        as [wall_calls [Hlen [Hwalls Heq]]].
      exists wall_calls. split; [exact Hlen|]. split; [exact Hwalls|].
      rewrite Heq. reflexivity.
Qed.

(** ** C5: junctions *)

Lemma dict_contains_set (k k' : OSMNode) (v : list RoadPart)
      (d : list (OSMNode * list RoadPart)) :
  dict_contains OSMNode_eq_dec k' (dict_set OSMNode_eq_dec k v d)
  = if OSMNode_eq_dec k k' then true
    else dict_contains OSMNode_eq_dec k' d.
Proof.
  unfold dict_contains. rewrite dict_get_set.
  destruct (OSMNode_eq_dec k k'); reflexivity.
Qed.

Lemma parts_at_nodes_init (node k : OSMNode)
      (nodes : list (OSMNode * list RoadPart)) :
  parts_at node (Map.nodes_init k nodes) = parts_at node nodes.
Proof.
  unfold Map.nodes_init, parts_at, dict_contains.
  destruct (dict_get OSMNode_eq_dec k nodes) eqn:Hk; [reflexivity|].
  rewrite dict_get_set. destruct (OSMNode_eq_dec k node) as [->|];
    [rewrite Hk|]; reflexivity.
Qed.

Lemma contains_nodes_init (k : OSMNode)
      (nodes : list (OSMNode * list RoadPart)) :
  dict_contains OSMNode_eq_dec k (Map.nodes_init k nodes) = true.
Proof.
  unfold Map.nodes_init.
  destruct (dict_contains OSMNode_eq_dec k nodes) eqn:Hk; [exact Hk|].
  rewrite dict_contains_set. destruct (OSMNode_eq_dec k k); congruence.
Qed.

Lemma contains_nodes_init_mono (k k' : OSMNode)
      (nodes : list (OSMNode * list RoadPart)) :
  dict_contains OSMNode_eq_dec k' nodes = true ->
  dict_contains OSMNode_eq_dec k' (Map.nodes_init k nodes) = true.
Proof.
  intro H. unfold Map.nodes_init.
  destruct (dict_contains OSMNode_eq_dec k nodes); [exact H|].
  rewrite dict_contains_set. destruct (OSMNode_eq_dec k k');
    [reflexivity | exact H].
Qed.

Lemma contains_nodes_add_mono (k k' : OSMNode) (part : RoadPart)
      (nodes : list (OSMNode * list RoadPart)) :
  dict_contains OSMNode_eq_dec k' nodes = true ->
  dict_contains OSMNode_eq_dec k' (Map.nodes_add k part nodes) = true.
Proof.
  intro H. unfold Map.nodes_add.
  destruct (dict_get OSMNode_eq_dec k nodes); [|exact H].
  rewrite dict_contains_set. destruct (OSMNode_eq_dec k k');
    [reflexivity | exact H].
Qed.

Lemma parts_at_nodes_add (node k : OSMNode) (part : RoadPart)
      (nodes : list (OSMNode * list RoadPart)) :
  dict_contains OSMNode_eq_dec k nodes = true ->
  parts_at node (Map.nodes_add k part nodes)
  = if OSMNode_eq_dec k node then Map.set_add part (parts_at node nodes)
    else parts_at node nodes.
Proof.
  unfold Map.nodes_add, parts_at, dict_contains.
  destruct (dict_get OSMNode_eq_dec k nodes) as [parts|] eqn:Hk;
    [|discriminate].
  intros _. rewrite dict_get_set.
  destruct (OSMNode_eq_dec k node) as [->|]; [rewrite Hk|]; reflexivity.
Qed.

Lemma nodes_init_NoDup (k : OSMNode)
      (nodes : list (OSMNode * list RoadPart)) :
  NoDup (dict_keys nodes) -> NoDup (dict_keys (Map.nodes_init k nodes)).
Proof.
  intro H. unfold Map.nodes_init.
  destruct (dict_contains OSMNode_eq_dec k nodes); [exact H|].
  apply dict_set_keys_NoDup. exact H.
Qed.

Lemma nodes_add_NoDup (k : OSMNode) (part : RoadPart)
      (nodes : list (OSMNode * list RoadPart)) :
  NoDup (dict_keys nodes) -> NoDup (dict_keys (Map.nodes_add k part nodes)).
Proof.
  intro H. unfold Map.nodes_add.
  destruct (dict_get OSMNode_eq_dec k nodes); [|exact H].
  apply dict_set_keys_NoDup. exact H.
Qed.

(** A part made by a later constructor call is a new member of the set. *)
Lemma set_add_fresh (part : RoadPart) (parts : list RoadPart) :
  Forall (fun p => RoadPart_id p < RoadPart_id part) parts ->
  Map.set_add part parts = parts ++ [part].
Proof.
  intro H. unfold Map.set_add.
  destruct (in_dec RoadPart_eq_dec part parts) as [Hin|]; [|reflexivity].
  rewrite Forall_forall in H. apply H in Hin. lia.
Qed.

Lemma set_add_NoDup (part : RoadPart) (parts : list RoadPart) :
  NoDup parts -> NoDup (Map.set_add part parts).
Proof.
  intro H. unfold Map.set_add.
  destruct (in_dec RoadPart_eq_dec part parts) as [Hin|Hnot]; [exact H|].
  apply NoDup_rev in H. apply (NoDup_cons part) in H.
  - apply NoDup_rev in H. simpl in H. rewrite rev_involutive in H. exact H.
  - rewrite <- in_rev. exact Hnot.
Qed.

Lemma filter_fst_NoDup {A B : Type} (p : A * B -> bool) (l : list (A * B)) :
  NoDup (map fst l) -> NoDup (map fst (filter p l)).
Proof.
  induction l as [|a l IH]; simpl; intro H; [constructor|].
  inversion H as [|? ? Hnot Hrest]; subst.
  destruct (p a); simpl; [|apply IH; exact Hrest].
  constructor; [|apply IH; exact Hrest].
  intro Hin. apply Hnot. apply in_map_iff in Hin.
  destruct Hin as [b [Hb Hin]]. apply filter_In in Hin.
  apply in_map_iff. exists b. tauto.
Qed.

Lemma half_edges_app (node : OSMNode) (l1 l2 : list (OSMNode * OSMNode)) :
  half_edges node (l1 ++ l2) = half_edges node l1 + half_edges node l2.
Proof.
  unfold half_edges. rewrite map_app, list_sum_app. reflexivity.
Qed.

Lemma add_segment_invariant (self : Map) (lanes : Q)
      (state : nat * list (OSMNode * list RoadPart))
      (segments : list (OSMNode * OSMNode)) (segment : OSMNode * OSMNode) :
  nodes_invariant state segments ->
  nodes_invariant (Map.add_segment self lanes state segment)
                  (segments ++ [segment]).
Proof.
  destruct state as [made nodes]. destruct segment as [node_1 node_2].
  intros [Hkeys Hparts]. unfold Map.add_segment. cbv zeta. split.
  - cbn [snd]. repeat first [apply nodes_add_NoDup | apply nodes_init_NoDup].
    exact Hkeys.
  - intro node. cbn [fst snd] in *. specialize (Hparts node).
    destruct Hparts as [Hlen [Hids Hnodup]].
    assert (H1 : dict_contains OSMNode_eq_dec node_1
                   (Map.nodes_init node_2 (Map.nodes_init node_1 nodes))
                 = true)
      by (apply contains_nodes_init_mono, contains_nodes_init).
    assert (H2 : forall part,
               dict_contains OSMNode_eq_dec node_2
                 (Map.nodes_add node_1 part
                    (Map.nodes_init node_2 (Map.nodes_init node_1 nodes)))
               = true)
      by (intro part; apply contains_nodes_add_mono, contains_nodes_init).
    rewrite parts_at_nodes_add by apply H2.
    rewrite parts_at_nodes_add by exact H1.
    rewrite !parts_at_nodes_init.
    rewrite half_edges_app. unfold half_edges at 2. simpl.
    unfold segment_ends. cbn [fst snd].
    assert (Hids' : Forall (fun p => RoadPart_id p < S made)
                           (parts_at node nodes))
      by (eapply Forall_impl; [|exact Hids]; simpl; intros; lia).
    assert (Hids'' : Forall (fun p => RoadPart_id p < S (S made))
                            (parts_at node nodes))
      by (eapply Forall_impl; [|exact Hids]; simpl; intros; lia).
    destruct (OSMNode_eq_dec node_1 node) as [E1|N1];
      destruct (OSMNode_eq_dec node_2 node) as [E2|N2].
    + split; [|split].
      * rewrite (@set_add_fresh _ (parts_at node nodes)) by exact Hids.
        rewrite set_add_fresh
          by (apply Forall_app; split;
              [exact Hids' | repeat constructor; simpl; lia]).
        rewrite !length_app. simpl. lia.
      * rewrite (@set_add_fresh _ (parts_at node nodes)) by exact Hids.
        rewrite set_add_fresh
          by (apply Forall_app; split;
              [exact Hids' | repeat constructor; simpl; lia]).
        repeat (apply Forall_app; split);
          try (repeat constructor; simpl; lia). exact Hids''.
      * apply set_add_NoDup, set_add_NoDup. exact Hnodup.
    + split; [|split].
      * rewrite set_add_fresh by exact Hids.
        rewrite !length_app. simpl. lia.
      * rewrite set_add_fresh by exact Hids.
        apply Forall_app. split; [exact Hids''|].
        repeat constructor; simpl; lia.
      * apply set_add_NoDup. exact Hnodup.
    + split; [|split].
      * rewrite set_add_fresh by exact Hids'.
        rewrite !length_app. simpl. lia.
      * rewrite set_add_fresh by exact Hids'.
        apply Forall_app. split; [exact Hids''|].
        repeat constructor; simpl; lia.
      * apply set_add_NoDup. exact Hnodup.
    + split; [lia|]. split; [exact Hids'' | exact Hnodup].
Qed.

Lemma add_road_invariant (self : Map) (road : Road)
      (state : nat * list (OSMNode * list RoadPart))
      (segments : list (OSMNode * OSMNode)) :
  nodes_invariant state segments ->
  nodes_invariant (Map.add_road self state road)
                  (segments ++ Map.road_segments road).
Proof.
  unfold Map.add_road. generalize (Map.road_segments road) as todo.
  intro todo. revert state segments.
  induction todo as [|segment todo IH]; intros state segments H; simpl.
  - rewrite app_nil_r. exact H.
  - replace (segments ++ segment :: todo)
      with ((segments ++ [segment]) ++ todo)
      by (rewrite <- app_assoc; reflexivity).
    apply IH. apply add_segment_invariant. exact H.
Qed.

Lemma collect_nodes_invariant (self : Map) (roads : list Road) :
  nodes_invariant (fold_left (Map.add_road self) roads (0, []))
                  (flat_map Map.road_segments roads).
Proof.
  assert (H : forall state segments,
             nodes_invariant state segments ->
             nodes_invariant (fold_left (Map.add_road self) roads state)
                             (segments ++ flat_map Map.road_segments roads)).
  { induction roads as [|road roads IH]; intros state segments H; simpl.
    - rewrite app_nil_r. exact H.
    - rewrite app_assoc. apply IH. apply add_road_invariant. exact H. }
  apply (H (0, []) []). split.
  - constructor.
  - intro node. split; [reflexivity|]. split; constructor.
Qed.

Lemma dict_In_get (node : OSMNode) (parts : list RoadPart)
      (nodes : list (OSMNode * list RoadPart)) :
  NoDup (dict_keys nodes) ->
  In (node, parts) nodes ->
  dict_get OSMNode_eq_dec node nodes = Some parts.
Proof.
  unfold dict_keys. induction nodes as [|[k v] nodes IH]; simpl;
    intros Hnodup Hin; [destruct Hin|].
  inversion Hnodup as [|? ? Hnot Hrest]; subst.
  destruct Hin as [E|Hin].
  - injection E as -> ->. destruct (OSMNode_eq_dec node node); congruence.
  - destruct (OSMNode_eq_dec k node) as [->|].
    + exfalso. apply Hnot. apply in_map_iff. exists (node, parts).
      split; [reflexivity | exact Hin].
    + apply IH; assumption.
Qed.

Lemma dict_get_In (node : OSMNode) (parts : list RoadPart)
      (nodes : list (OSMNode * list RoadPart)) :
  dict_get OSMNode_eq_dec node nodes = Some parts -> In (node, parts) nodes.
Proof.
  induction nodes as [|[k v] nodes IH]; simpl; [discriminate|].
  destruct (OSMNode_eq_dec k node) as [->|].
  - intro E. injection E as ->. left. reflexivity.
  - intro H. right. apply IH. exact H.
Qed.

(** The segments the mapper walks have, at a node, as many ends as the road
    has half-edges incident to the node. *)
Lemma half_edges_chain (node first : OSMNode) (others : list OSMNode) :
  half_edges node (combine (first :: others) others)
  = count_occ OSMNode_eq_dec (removelast (first :: others)) node
    + count_occ OSMNode_eq_dec others node.
Proof.
  revert first. induction others as [|second others IH]; intro first.
  - reflexivity.
  - change (combine (first :: second :: others) (second :: others))
      with ((first, second) :: combine (second :: others) others).
    change (removelast (first :: second :: others))
      with (first :: removelast (second :: others)).
    unfold half_edges in *. cbn [map list_sum fold_right count_occ].
    change (fold_right Nat.add 0
              (map (segment_ends node) (combine (second :: others) others)))
      with (list_sum
              (map (segment_ends node) (combine (second :: others) others))).
    rewrite IH. unfold segment_ends. cbn [fst snd].
    destruct (OSMNode_eq_dec first node);
      destruct (OSMNode_eq_dec second node); lia.
Qed.

Lemma half_edges_road (node : OSMNode) (road : Road) :
  half_edges node (Map.road_segments road) = incident_half_edges node road.
Proof.
  unfold Map.road_segments, incident_half_edges.
  destruct (Road_nodes road) as [|first others]; [reflexivity|].
  apply half_edges_chain.
Qed.

Lemma half_edges_roads (node : OSMNode) (roads : list Road) :
  half_edges node (flat_map Map.road_segments roads)
  = half_edges_at node roads.
Proof.
  unfold half_edges_at. induction roads as [|road roads IH];
    [reflexivity|].
  cbn [flat_map map]. rewrite half_edges_app, IH, half_edges_road.
  reflexivity.
Qed.

(** C5: a junction shape is made for a node if and only if four or more
    half-edges are incident to it, counted on the nodes of the roads (one
    for each end of a road segment at the node); the shape is made once,
    from exactly as many RoadParts as there are such half-edges, all
    different; a node with three or fewer gets none. *)
Theorem C5_junction_iff_four_half_edges (self : Map) (roads : list Road) :
  (forall node,
      has_junction self roads node = (4 <=? half_edges_at node roads))
  /\ Forall (fun entry : OSMNode * list RoadPart =>
               List.length (snd entry) = half_edges_at (fst entry) roads
               /\ NoDup (snd entry))
            (Map.junctions self roads)
  /\ NoDup (map fst (Map.junctions self roads))
  /\ Map.draw_simple_roads self roads
     = map (fun entry : OSMNode * list RoadPart =>
              Intersection_draw (snd entry))
           (Map.junctions self roads).
Proof.
  pose proof (collect_nodes_invariant self roads) as [Hkeys Hparts].
  change (snd (fold_left (Map.add_road self) roads (0, [])))
    with (Map.collect_nodes self roads) in *.
  split; [|split; [|split]].
  - intro node. specialize (Hparts node). destruct Hparts as [Hlen _].
    rewrite half_edges_roads in Hlen.
    destruct (4 <=? half_edges_at node roads) eqn:Hfour.
    + apply Nat.leb_le in Hfour. unfold has_junction.
      apply existsb_exists. unfold parts_at in Hlen.
      destruct (dict_get OSMNode_eq_dec node (Map.collect_nodes self roads))
        as [parts|] eqn:Hget; [|simpl in Hlen; lia].
      exists (node, parts). split.
      * unfold Map.junctions. apply filter_In.
        split; [apply dict_get_In; exact Hget|].
        apply negb_true_iff. apply Nat.ltb_ge. lia.
      * simpl. destruct (OSMNode_eq_dec node node); congruence.
    + apply Nat.leb_gt in Hfour. unfold has_junction.
      apply not_true_is_false. intro Hex. apply existsb_exists in Hex.
      destruct Hex as [[node' parts] [Hin Heq]]. simpl in Heq.
      destruct (OSMNode_eq_dec node' node) as [->|]; [|discriminate].
      unfold Map.junctions in Hin. apply filter_In in Hin.
      destruct Hin as [Hin Hlong].
      apply negb_true_iff, Nat.ltb_ge in Hlong.
      apply dict_In_get in Hin; [|exact Hkeys].
      unfold parts_at in Hlen. rewrite Hin in Hlen. lia.
  - apply Forall_forall. intros [node parts] Hin.
    unfold Map.junctions in Hin. apply filter_In in Hin.
    destruct Hin as [Hin _]. apply dict_In_get in Hin; [|exact Hkeys].
    destruct (Hparts node) as [Hlen [_ Hnodup]].
    unfold parts_at in Hlen, Hnodup. rewrite Hin in Hlen, Hnodup.
    rewrite half_edges_roads in Hlen.
    split; [exact Hlen | exact Hnodup].
  - unfold Map.junctions. apply filter_fst_NoDup. exact Hkeys.
  - unfold Map.draw_simple_roads. apply map_ext. intros [node parts].
    reflexivity.
Qed.

(** The crossroads gets one junction, made of its four half-edges at the
    centre; the T-junction gets none. *)
Example crossroads_junction :
  half_edges_at Sample.centre Sample.crossroads = 4
  /\ half_edges_at Sample.centre Sample.t_junction = 3
  /\ map fst (Map.junctions Sample.map Sample.crossroads) = [Sample.centre]
  /\ map (fun entry : OSMNode * list RoadPart =>
            map RoadPart_id (snd entry))
         (Map.junctions Sample.map Sample.crossroads)
     = [[1; 2; 5; 6]]
  /\ Map.draw_simple_roads Sample.map Sample.t_junction = [].
Proof.
  repeat split; vm_compute; reflexivity.
Qed.

(** ** The calls of [Map.draw] on the samples *)

Example draw_overlay_and_tree :
  map code_layer
      (Map.draw Sample.imports Sample.Segment_lt Sample.map
                Sample.overlay_and_tree)
  = [1; 3; 4; 5; 7; 12; 12]
  /\ map spec_layer
         (Map.draw Sample.imports Sample.Segment_lt Sample.map
                   Sample.overlay_and_tree)
     = [Some 10; Some 30; Some 60; Some 40; Some 50; Some 90; Some 90].
Proof.
  split; vm_compute; reflexivity.
Qed.

Example draw_shared_wall :
  Map.draw_buildings Sample.imports Sample.Segment_lt Sample.map
                     Sample.shared_wall
  = [svg_add_shade [Sample.tower; Sample.annex];
     draw_walls Sample.annex Sample.wall 2 (Map.shift Sample.imports 1 0)
                (Map.shift Sample.imports 1 2);
     Building_draw_roof Sample.annex 1;
     Building_draw_roof Sample.tower 1].
Proof.
  reflexivity.
Qed.

(** * Further properties of the mapper *)

(** ** Walls stay inside their building *)

(** X1: every wall that the building pass draws is drawn at a recorded height
    that is strictly above the minimum height of its building and at most
    its height, for a building of the input that has the segment among its
    parts; so a building whose height does not exceed its minimum height (a
    flat building, both 0) gets no wall at all. *)
Theorem walls_within_extent
        (I : Imports) (Segment_lt : Segment -> Segment -> bool) (self : Map)
        (constructor : Constructor) :
  Forall (fun call =>
            match call with
            | draw_walls building wall height _ _ =>
                In height (Constructor_heights constructor)
                /\ (Building_min_height building < height)%Q
                /\ (height <= Building_height building)%Q
                /\ (Building_min_height building < Building_height building)%Q
                /\ In building (Constructor_buildings constructor)
                /\ In wall (Building_parts building)
            | _ => True
            end)
         (Map.draw_buildings I Segment_lt self constructor).
Proof.
  apply Forall_forall. intros call Hin.
  destruct call; try exact Logic.I.
  unfold Map.draw_buildings in Hin.
  destruct (MapConfiguration_building_mode (Map_configuration self)).
  - destruct Hin.
  - apply in_map_iff in Hin. destruct Hin as [b [E _]]. discriminate.
  - destruct Hin as [Hin|Hin]; [discriminate|].
    apply draw_slices_In_inv in Hin.
    destruct Hin as [Hh [_ [Hget [Hle Hlt]]]].
    rewrite collect_walls_get in Hget. apply owner_Some in Hget.
    apply sorted_In in Hh. repeat split; try tauto.
    eapply Qlt_le_trans; eassumption.
Qed.

(** ** The slices of one wall follow one another *)

Lemma calls_of_wall_app (wall : Segment) (l1 l2 : list Call) :
  calls_of_wall wall (l1 ++ l2)
  = calls_of_wall wall l1 ++ calls_of_wall wall l2.
Proof.
  apply filter_app.
Qed.

Lemma calls_of_wall_no_wall (wall : Segment) (calls : list Call) :
  Forall (fun call => is_wall call = false) calls ->
  calls_of_wall wall calls = [].
Proof.
  unfold calls_of_wall. induction 1 as [|call calls Hc _ IH]; simpl.
  - reflexivity.
  - destruct call; simpl in *; try exact IH. discriminate.
Qed.

Lemma calls_of_wall_wall_call (I : Imports) (scale : Q)
      (walls : list (Segment * Building)) (wall wall' : Segment)
      (previous height : Q) :
  calls_of_wall wall (wall_call I scale walls wall' previous height)
  = if Segment_eq_dec wall wall'
    then wall_call I scale walls wall previous height
    else [].
Proof.
  unfold wall_call, calls_of_wall.
  destruct (Segment_eq_dec wall wall') as [<-|N].
  - destruct (dict_get Segment_eq_dec wall walls); [|reflexivity].
    destruct (_ || _); [reflexivity|]. simpl.
    destruct (Segment_eq_dec wall wall); [reflexivity | congruence].
  - destruct (dict_get Segment_eq_dec wall' walls); [|reflexivity].
    destruct (_ || _); [reflexivity|]. simpl.
    destruct (Segment_eq_dec wall wall'); [congruence | reflexivity].
Qed.

Lemma calls_of_wall_slice_walls (I : Imports) (scale : Q)
      (walls : list (Segment * Building)) (sorted_walls : list Segment)
      (wall : Segment) (previous height : Q) :
  NoDup sorted_walls ->
  calls_of_wall wall
    (Map.draw_slice_walls I scale walls sorted_walls previous height)
  = if in_dec Segment_eq_dec wall sorted_walls
    then wall_call I scale walls wall previous height
    else [].
Proof.
  change (Map.draw_slice_walls I scale walls sorted_walls previous height)
    with (flat_map (fun wall' => wall_call I scale walls wall' previous height)
                   sorted_walls).
  induction 1 as [|wall' rest Hnot Hnodup IH]; [reflexivity|].
  cbn [flat_map]. rewrite calls_of_wall_app, calls_of_wall_wall_call, IH.
  destruct (Segment_eq_dec wall wall') as [<-|N].
  - destruct (in_dec Segment_eq_dec wall rest) as [Hin|_];
      [contradiction|].
    rewrite app_nil_r.
    destruct (in_dec Segment_eq_dec wall (wall :: rest)) as [_|Hout];
      [reflexivity|].
    exfalso. apply Hout. left. reflexivity.
  - simpl app.
    destruct (in_dec Segment_eq_dec wall rest) as [Hin|Hout];
      destruct (in_dec Segment_eq_dec wall (wall' :: rest)) as [Hin'|Hout'];
      try reflexivity.
    + exfalso. apply Hout'. right. exact Hin.
    + exfalso. destruct Hin' as [E|Hin']; [congruence | contradiction].
Qed.

Section OneWall.

Variables (I : Imports) (self : Map) (scale : Q).
Variables (buildings : list Building) (walls : list (Segment * Building)).
Variable sorted_walls : list Segment.
Variable wall : Segment.
Hypothesis sorted_walls_NoDup' : NoDup sorted_walls.

Lemma calls_of_wall_slices (previous height : Q) (rest : list Q) :
  calls_of_wall wall
    (Map.draw_slices I self scale buildings walls sorted_walls previous
                     (height :: rest))
  = (if in_dec Segment_eq_dec wall sorted_walls
     then wall_call I scale walls wall previous height
     else [])
    ++ calls_of_wall wall
         (Map.draw_slices I self scale buildings walls sorted_walls height
                          rest).
Proof.
  cbn [Map.draw_slices]. unfold Map.draw_slice.
  rewrite !calls_of_wall_app.
  rewrite (calls_of_wall_no_wall wall
             (draw_slice_roofs_no_wall self scale buildings height)).
  rewrite calls_of_wall_slice_walls by exact sorted_walls_NoDup'.
  rewrite app_nil_r. reflexivity.
Qed.

(** Above the height of the building nothing is drawn. *)
Lemma calls_of_wall_above (building : Building) (heights : list Q)
      (previous : Q) :
  dict_get Segment_eq_dec wall walls = Some building ->
  Forall (fun height => (Building_height building < height)%Q) heights ->
  calls_of_wall wall
    (Map.draw_slices I self scale buildings walls sorted_walls previous
                     heights)
  = [].
Proof.
  intros Hget Hall. revert previous.
  induction Hall as [|height rest Hh _ IH]; intro previous; [reflexivity|].
  rewrite calls_of_wall_slices, IH. unfold wall_call. rewrite Hget.
  apply Qltb_lt in Hh. rewrite Hh. simpl.
  destruct (in_dec Segment_eq_dec wall sorted_walls); reflexivity.
Qed.

(** Past the minimum height the slices of the wall start at the previous
    height and follow one another. *)
Lemma calls_of_wall_run (building : Building) (heights : list Q)
      (previous : Q) :
  dict_get Segment_eq_dec wall walls = Some building ->
  StronglySorted Qle heights ->
  Forall (fun height => (Building_min_height building < height)%Q) heights ->
  let calls :=
    calls_of_wall wall
      (Map.draw_slices I self scale buildings walls sorted_walls previous
                       heights) in
  chained calls
  /\ match calls with
     | draw_walls _ _ _ start _ :: _ => start = Map.shift I scale previous
     | _ => True
     end.
Proof.
  intros Hget Hs. revert previous.
  induction Hs as [|height rest Hs IH Hall]; intros previous Hmin.
  - split; exact Logic.I.
  - cbv zeta. rewrite calls_of_wall_slices.
    inversion Hmin as [|? ? Hh Hrest]; subst.
    destruct (in_dec Segment_eq_dec wall sorted_walls) as [Hin|Hout].
    + unfold wall_call. rewrite Hget.
      destruct (Qltb (Building_height building) height) eqn:Hhigh.
      * simpl. rewrite calls_of_wall_above with (building := building).
        -- split; exact Logic.I.
        -- exact Hget.
        -- apply Qltb_lt in Hhigh. eapply Forall_impl; [|exact Hall].
           intros h Hle. simpl in Hle. eapply Qlt_le_trans; eassumption.
      * apply Qgeb_false in Hh. rewrite Hh. simpl.
        destruct (IH height Hrest) as [Hchain Hstart].
        split; [|reflexivity]. split; [|exact Hchain].
        destruct (calls_of_wall wall _) as [|next more]; [exact Logic.I|].
        destruct next; try exact Logic.I. exact Hstart.
    + simpl. destruct (IH height Hrest) as [Hchain Hstart].
      assert (Hnone : forall p hs,
                 calls_of_wall wall
                   (Map.draw_slices I self scale buildings walls sorted_walls
                                    p hs) = []).
      { intros p hs. revert p. induction hs as [|h hs IHhs]; intro p;
          [reflexivity|].
        rewrite calls_of_wall_slices, IHhs.
        destruct (in_dec Segment_eq_dec wall sorted_walls);
          [contradiction | reflexivity]. }
      rewrite Hnone. split; exact Logic.I.
Qed.

Lemma calls_of_wall_chained (heights : list Q) (previous : Q) :
  StronglySorted Qle heights ->
  chained
    (calls_of_wall wall
       (Map.draw_slices I self scale buildings walls sorted_walls previous
                        heights)).
Proof.
  intro Hs. revert previous.
  induction Hs as [|height rest Hs IH Hall]; intro previous.
  - exact Logic.I.
  - rewrite calls_of_wall_slices.
    destruct (in_dec Segment_eq_dec wall sorted_walls) as [Hin|Hout];
      [|apply IH].
    unfold wall_call.
    destruct (dict_get Segment_eq_dec wall walls) as [building|] eqn:Hget;
      [|apply IH].
    destruct (Qltb (Building_height building) height
              || Qgeb (Building_min_height building) height) eqn:Hskip;
      [apply IH|].
    apply orb_false_iff in Hskip. destruct Hskip as [_ Hmin].
    apply Qgeb_false in Hmin.
    destruct (@calls_of_wall_run building rest height Hget Hs)
      as [Hchain Hstart].
    { eapply Forall_impl; [|exact Hall].
      intros h Hle. simpl in Hle. eapply Qlt_le_trans; eassumption. }
    simpl. split; [|exact Hchain].
    destruct (calls_of_wall wall _) as [|next more]; [exact Logic.I|].
    destruct next; try exact Logic.I. exact Hstart.
Qed.

End OneWall.

(** X2: the walls drawn for one segment, read in the order in which they are
    drawn, follow one another: each slice starts at the shift at which the
    slice before it ended, so the slices of a segment neither overlap nor
    leave a gap between them. *)
Theorem wall_slices_chained
        (I : Imports) (Segment_lt : Segment -> Segment -> bool) (self : Map)
        (constructor : Constructor) (wall : Segment) :
  chained (calls_of_wall wall
             (Map.draw_buildings I Segment_lt self constructor)).
Proof.
  unfold Map.draw_buildings.
  destruct (MapConfiguration_building_mode (Map_configuration self)).
  - exact Logic.I.
  - rewrite calls_of_wall_no_wall; [exact Logic.I|].
    rewrite Forall_map. apply Forall_forall. reflexivity.
  - change (calls_of_wall wall (svg_add_shade ?b :: ?l))
      with (calls_of_wall wall l).
    apply calls_of_wall_chained.
    + apply sorted_walls_NoDup.
    + apply sorted_heights_sorted.
Qed.

(** The wall of the tower is drawn in three slices, 0 to 2, 2 to 4 and 4 to
    10. *)
Example tower_alone_slices :
  calls_of_wall Sample.wall
    (Map.draw_buildings Sample.imports Sample.Segment_lt Sample.map
                        Sample.tower_alone)
  = [draw_walls Sample.tower Sample.wall 2 (Map.shift Sample.imports 1 0)
                (Map.shift Sample.imports 1 2);
     draw_walls Sample.tower Sample.wall 4 (Map.shift Sample.imports 1 2)
                (Map.shift Sample.imports 1 4);
     draw_walls Sample.tower Sample.wall 10 (Map.shift Sample.imports 1 4)
                (Map.shift Sample.imports 1 10)].
Proof.
  reflexivity.
Qed.

(** ** Which buildings get a roof *)

Lemma draw_slice_roof_In (I : Imports) (self : Map) (scale : Q)
      (buildings : list Building) (walls : list (Segment * Building))
      (sorted_walls : list Segment) (previous height : Q)
      (building : Building) (s : Q) :
  In (Building_draw_roof building s)
     (Map.draw_slice I self scale buildings walls sorted_walls previous
                     height)
  <-> MapConfiguration_draw_roofs (Map_configuration self) = true
      /\ s = scale
      /\ In building buildings
      /\ Qeq_bool (Building_height building) height = true.
Proof.
  unfold Map.draw_slice. rewrite in_app_iff, draw_slice_roofs_roofs_at.
  split.
  - intros [H|H].
    + exfalso.
      pose proof (draw_slice_walls_walls I scale walls sorted_walls previous
                                         height) as Hw.
      rewrite Forall_forall in Hw. specialize (Hw _ H). discriminate.
    + destruct (MapConfiguration_draw_roofs (Map_configuration self));
        [|destruct H].
      unfold roofs_at in H. apply in_map_iff in H.
      destruct H as [b [E Hb]]. injection E as -> ->.
      apply filter_In in Hb. tauto.
  - intros [Hflag [-> [Hb Hh]]]. right. rewrite Hflag.
    unfold roofs_at. apply in_map_iff. exists building.
    split; [reflexivity|]. apply filter_In. tauto.
Qed.

Lemma draw_slices_roof_In (I : Imports) (self : Map) (scale : Q)
      (buildings : list Building) (walls : list (Segment * Building))
      (sorted_walls : list Segment) (heights : list Q) (previous : Q)
      (building : Building) (s : Q) :
  In (Building_draw_roof building s)
     (Map.draw_slices I self scale buildings walls sorted_walls previous
                      heights)
  <-> MapConfiguration_draw_roofs (Map_configuration self) = true
      /\ s = scale
      /\ In building buildings
      /\ exists height,
           In height heights
           /\ Qeq_bool (Building_height building) height = true.
Proof.
  revert previous. induction heights as [|height rest IH]; intro previous.
  - simpl. split; [intros [] | intros [_ [_ [_ [h [[] _]]]]]].
  - cbn [Map.draw_slices]. rewrite in_app_iff, draw_slice_roof_In, IH.
    split.
    + intros [[Hf [Hs [Hb Hh]]]|[Hf [Hs [Hb [h [Hin Hh]]]]]].
      * repeat split; try assumption. exists height.
        split; [left; reflexivity | exact Hh].
      * repeat split; try assumption. exists h.
        split; [right; exact Hin | exact Hh].
    + intros [Hf [Hs [Hb [h [[<-|Hin] Hh]]]]].
      * left. tauto.
      * right. repeat split; try assumption. exists h. tauto.
Qed.

(** X3: a building gets a roof if and only if roofs are enabled, the extrusion
    pass is taken and the height of the building equals one of the recorded
    heights: a building whose height is not recorded gets no roof.  Every
    roof drawn is the roof of a building of the input, at the scale of the
    canvas. *)
Theorem roof_iff_height_recorded
        (I : Imports) (Segment_lt : Segment -> Segment -> bool) (self : Map)
        (constructor : Constructor) :
  let calls := Map.draw_buildings I Segment_lt self constructor in
  let scale := Flinger_get_scale (Map_flinger self) None in
  Forall (fun building =>
            In (Building_draw_roof building scale) calls
            <-> MapConfiguration_draw_roofs (Map_configuration self) = true
                /\ is_extruded (MapConfiguration_building_mode
                                  (Map_configuration self)) = true
                /\ exists height,
                     In height (Constructor_heights constructor)
                     /\ (Building_height building == height)%Q)
         (Constructor_buildings constructor)
  /\ Forall (fun call =>
               match call with
               | Building_draw_roof building s =>
                   In building (Constructor_buildings constructor)
                   /\ s = scale
               | _ => True
               end) calls.
Proof.
  cbv zeta. unfold Map.draw_buildings. split.
  - apply Forall_forall. intros building Hb.
    destruct (MapConfiguration_building_mode (Map_configuration self));
      simpl is_extruded.
    + split; [intros [] | intros [_ [H _]]; discriminate].
    + split; [|intros [_ [H _]]; discriminate].
      intro H. apply in_map_iff in H. destruct H as [b [E _]]. discriminate.
    + split.
      * intros [H|H]; [discriminate|].
        apply draw_slices_roof_In in H.
        destruct H as [Hf [_ [_ [h [Hin Hh]]]]].
        split; [exact Hf|]. split; [reflexivity|]. exists h.
        apply sorted_In in Hin. apply Qeq_bool_iff in Hh. tauto.
      * intros [Hf [_ [h [Hin Hh]]]]. right.
        apply draw_slices_roof_In. repeat split; try assumption.
        exists h. split; [apply sorted_In; exact Hin|].
        apply Qeq_bool_iff. exact Hh.
  - apply Forall_forall. intros call Hin.
    destruct call; try exact Logic.I.
    destruct (MapConfiguration_building_mode (Map_configuration self)).
    + destruct Hin.
    + apply in_map_iff in Hin. destruct Hin as [b [E _]]. discriminate.
    + destruct Hin as [Hin|Hin]; [discriminate|].
      apply draw_slices_roof_In in Hin. tauto.
Qed.

(** ** No buildings *)

Lemma draw_slices_no_buildings (I : Imports) (self : Map) (scale : Q)
      (heights : list Q) (previous : Q) :
  Map.draw_slices I self scale [] [] [] previous heights = [].
Proof.
  revert previous. induction heights as [|height rest IH]; intro previous.
  - reflexivity.
  - cbn [Map.draw_slices]. rewrite IH. unfold Map.draw_slice.
    rewrite draw_slice_roofs_roofs_at.
    destruct (MapConfiguration_draw_roofs _); reflexivity.
Qed.

(** X4: with no buildings the extrusion pass still appends its shade group, an
    empty one, and nothing else, whatever heights are recorded; the flat
    pass and the disabled pass append nothing. *)
Theorem no_buildings_only_shade
        (I : Imports) (Segment_lt : Segment -> Segment -> bool) (self : Map)
        (constructor : Constructor) :
  Constructor_buildings constructor = [] ->
  Map.draw_buildings I Segment_lt self constructor
  = if is_extruded (MapConfiguration_building_mode (Map_configuration self))
    then [svg_add_shade []]
    else [].
Proof.
  intro Hnone. unfold Map.draw_buildings. rewrite Hnone.
  destruct (MapConfiguration_building_mode (Map_configuration self));
    try reflexivity.
  simpl. rewrite draw_slices_no_buildings. reflexivity.
Qed.

(** The empty sample has no buildings. *)
Lemma no_buildings_only_shade_witness :
  Constructor_buildings Sample.empty = []
  /\ Map.draw_buildings Sample.imports Sample.Segment_lt Sample.map
                        Sample.empty
     = [svg_add_shade []].
Proof.
  split; [reflexivity|].
  apply (no_buildings_only_shade Sample.imports Sample.Segment_lt Sample.map
                                 Sample.empty).
  reflexivity.
Defined.

(** ** The half-edges stored at a node *)

Lemma add_segment_parts_at (self : Map) (lanes : Q) (made : nat)
      (nodes : list (OSMNode * list RoadPart)) (segment : OSMNode * OSMNode)
      (node : OSMNode) :
  parts_at node (snd (Map.add_segment self lanes (made, nodes) segment))
  = (if OSMNode_eq_dec (snd segment) node
     then Map.set_add (part_2_of self lanes made segment)
     else fun parts => parts)
      ((if OSMNode_eq_dec (fst segment) node
        then Map.set_add (part_1_of self lanes made segment)
        else fun parts => parts)
         (parts_at node nodes)).
Proof.
  destruct segment as [node_1 node_2]. unfold Map.add_segment. cbv zeta.
  cbn [fst snd].
  rewrite parts_at_nodes_add
    by (apply contains_nodes_add_mono, contains_nodes_init).
  rewrite parts_at_nodes_add
    by (apply contains_nodes_init_mono, contains_nodes_init).
  rewrite !parts_at_nodes_init.
  destruct (OSMNode_eq_dec node_1 node);
    destruct (OSMNode_eq_dec node_2 node); reflexivity.
Qed.

Lemma add_segment_made (self : Map) (lanes : Q) (made : nat)
      (nodes : list (OSMNode * list RoadPart)) (segment : OSMNode * OSMNode) :
  fst (Map.add_segment self lanes (made, nodes) segment) = S (S made).
Proof.
  destruct segment as [node_1 node_2]. reflexivity.
Qed.

Lemma set_add_Forall (P : RoadPart -> Prop) (part : RoadPart)
      (parts : list RoadPart) :
  P part -> Forall P parts -> Forall P (Map.set_add part parts).
Proof.
  intros Hp Hall. unfold Map.set_add.
  destruct (in_dec RoadPart_eq_dec part parts); [exact Hall|].
  apply Forall_app. split; [exact Hall | repeat constructor; exact Hp].
Qed.

Section PartsInvariant.

(** A property of the parts that both constructor calls of the loop body
    establish holds of every part stored. *)
Variable self : Map.
Variable P : OSMNode -> RoadPart -> Prop.

Lemma add_road_Forall (road : Road)
      (state : nat * list (OSMNode * list RoadPart)) :
  (forall segment made,
      In segment (Map.road_segments road) ->
      P (fst segment) (part_1_of self (Road_lanes road) made segment)
      /\ P (snd segment) (part_2_of self (Road_lanes road) made segment)) ->
  (forall node, Forall (P node) (parts_at node (snd state))) ->
  forall node,
    Forall (P node) (parts_at node (snd (Map.add_road self state road))).
Proof.
  unfold Map.add_road. generalize (Map.road_segments road) as todo.
  intro todo. revert state.
  induction todo as [|segment todo IH]; intros state Hnew Hold node.
  - exact (Hold node).
  - simpl. apply IH.
    + intros s m Hs. apply Hnew. right. exact Hs.
    + intro n. destruct state as [made nodes].
      rewrite add_segment_parts_at.
      destruct (Hnew segment made (or_introl eq_refl)) as [H1 H2].
      destruct (OSMNode_eq_dec (fst segment) n) as [E1|N1];
        destruct (OSMNode_eq_dec (snd segment) n) as [E2|N2].
      * apply set_add_Forall; [rewrite <- E2; exact H2|].
        apply set_add_Forall; [rewrite <- E1; exact H1 | apply Hold].
      * apply set_add_Forall; [rewrite <- E1; exact H1 | apply Hold].
      * apply set_add_Forall; [rewrite <- E2; exact H2 | apply Hold].
      * apply Hold.
Qed.

Lemma collect_nodes_Forall (roads : list Road) :
  (forall road segment made,
      In road roads ->
      In segment (Map.road_segments road) ->
      P (fst segment) (part_1_of self (Road_lanes road) made segment)
      /\ P (snd segment) (part_2_of self (Road_lanes road) made segment)) ->
  forall node, Forall (P node) (parts_at node (Map.collect_nodes self roads)).
Proof.
  unfold Map.collect_nodes.
  assert (H : forall state,
             (forall road segment made,
                 In road roads ->
                 In segment (Map.road_segments road) ->
                 P (fst segment)
                   (part_1_of self (Road_lanes road) made segment)
                 /\ P (snd segment)
                      (part_2_of self (Road_lanes road) made segment)) ->
             (forall node, Forall (P node) (parts_at node (snd state))) ->
             forall node,
               Forall (P node)
                      (parts_at node
                         (snd (fold_left (Map.add_road self) roads state)))).
  { induction roads as [|road roads IH]; intros state Hnew Hold node.
    - exact (Hold node).
    - simpl. apply IH.
      + intros r s m Hr. apply Hnew. right. exact Hr.
      + apply add_road_Forall; [|exact Hold].
        intros s m Hs. apply Hnew; [left; reflexivity | exact Hs]. }
  intros Hnew node. apply H; [exact Hnew|]. intro n. constructor.
Qed.

End PartsInvariant.

Lemma collect_nodes_keys_NoDup (self : Map) (roads : list Road) :
  NoDup (dict_keys (Map.collect_nodes self roads)).
Proof.
  exact (proj1 (collect_nodes_invariant self roads)).
Qed.

(** X5: every half-edge handed to a junction leaves the node of the junction: it
    starts at the projected position of the node and ends at the projected
    position of the other end of a segment of some road, whose lanes it
    carries; its scale is the scale at the first node of that segment,
    whichever end the node is.  The same holds of every half-edge stored for
    any node. *)
Theorem half_edges_leave_their_node (self : Map) (roads : list Road) :
  Forall (fun entry : OSMNode * list RoadPart =>
            Forall (leaves_node self roads (fst entry)) (snd entry))
         (Map.collect_nodes self roads)
  /\ Forall (fun entry : OSMNode * list RoadPart =>
               Forall (leaves_node self roads (fst entry)) (snd entry))
            (Map.junctions self roads).
Proof.
  assert (H : Forall (fun entry : OSMNode * list RoadPart =>
                        Forall (leaves_node self roads (fst entry))
                               (snd entry))
                     (Map.collect_nodes self roads)).
  { apply Forall_forall. intros [node parts] Hin. cbn [fst snd].
    apply dict_In_get in Hin; [|apply collect_nodes_keys_NoDup].
    pose proof (collect_nodes_Forall self (leaves_node self roads) roads)
      as Hall.
    assert (Hparts : Forall (leaves_node self roads node)
                            (parts_at node (Map.collect_nodes self roads))).
    { apply Hall. intros road [node_1 node_2] made Hroad Hseg. split.
      - exists road, (node_1, node_2), node_2. cbn. tauto.
      - exists road, (node_1, node_2), node_1. cbn. tauto. }
    unfold parts_at in Hparts. rewrite Hin in Hparts. exact Hparts. }
  split; [exact H|].
  unfold Map.junctions. apply Forall_filter_keep. exact H.
Qed.

(** ** Roads too short to have a segment *)

Lemma road_segments_short (road : Road) :
  List.length (Road_nodes road) < 2 -> Map.road_segments road = [].
Proof.
  unfold Map.road_segments. destruct (Road_nodes road) as [|a [|b rest]];
    simpl; intro H; try reflexivity. lia.
Qed.

Lemma road_segments_length (road : Road) :
  List.length (Map.road_segments road)
  = List.length (Road_nodes road) - 1.
Proof.
  unfold Map.road_segments. rewrite length_combine.
  destruct (Road_nodes road) as [|a rest]; cbn [tl List.length]; lia.
Qed.

(** X6: a road with no node or with one node has no segment: it makes no
    RoadPart and leaves the junctions as they are.  In particular no road,
    or only such roads, gives no junction. *)
Theorem short_roads_ignored (self : Map) (roads : list Road) :
  Map.draw_simple_roads self
    (filter (fun road => 2 <=? List.length (Road_nodes road)) roads)
  = Map.draw_simple_roads self roads.
Proof.
  unfold Map.draw_simple_roads, Map.junctions, Map.collect_nodes.
  assert (H : forall state,
             fold_left (Map.add_road self)
                       (filter (fun road =>
                                  2 <=? List.length (Road_nodes road)) roads)
                       state
             = fold_left (Map.add_road self) roads state).
  { induction roads as [|road roads IH]; intro state; [reflexivity|].
    cbn [filter fold_left].
    destruct (2 <=? List.length (Road_nodes road)) eqn:Hlong.
    - cbn [fold_left]. apply IH.
    - apply Nat.leb_gt in Hlong. rewrite IH. f_equal.
      unfold Map.add_road. rewrite road_segments_short by exact Hlong.
      reflexivity. }
  rewrite H. reflexivity.
Qed.

(** ** Two half-edges for every segment *)

Lemma total_parts_set (k : OSMNode) (v : list RoadPart)
      (d : list (OSMNode * list RoadPart)) :
  total_parts (dict_set OSMNode_eq_dec k v d) + List.length (parts_at k d)
  = total_parts d + List.length v.
Proof.
  unfold total_parts, parts_at. induction d as [|[k0 v0] d IH]; simpl.
  - lia.
  - destruct (OSMNode_eq_dec k0 k); simpl; lia.
Qed.

Lemma total_parts_init (k : OSMNode) (d : list (OSMNode * list RoadPart)) :
  total_parts (Map.nodes_init k d) = total_parts d.
Proof.
  unfold Map.nodes_init, dict_contains.
  destruct (dict_get OSMNode_eq_dec k d) eqn:Hget; [reflexivity|].
  pose proof (total_parts_set k [] d) as H. unfold parts_at in H.
  rewrite Hget in H. simpl in H. lia.
Qed.

Lemma total_parts_add (k : OSMNode) (part : RoadPart)
      (d : list (OSMNode * list RoadPart)) :
  dict_contains OSMNode_eq_dec k d = true ->
  Forall (fun p => RoadPart_id p < RoadPart_id part) (parts_at k d) ->
  total_parts (Map.nodes_add k part d) = S (total_parts d).
Proof.
  intros Hk Hfresh. unfold Map.nodes_add, dict_contains, parts_at in *.
  destruct (dict_get OSMNode_eq_dec k d) as [parts|] eqn:Hget;
    [|discriminate].
  pose proof (total_parts_set k (Map.set_add part parts) d) as H.
  unfold parts_at in H. rewrite Hget in H.
  rewrite set_add_fresh in H by exact Hfresh. rewrite length_app in H.
  simpl in H. rewrite set_add_fresh by exact Hfresh. lia.
Qed.

Lemma add_segment_total (self : Map) (lanes : Q)
      (state : nat * list (OSMNode * list RoadPart))
      (segments : list (OSMNode * OSMNode)) (segment : OSMNode * OSMNode) :
  nodes_invariant state segments ->
  total_parts (snd (Map.add_segment self lanes state segment))
  = S (S (total_parts (snd state))).
Proof.
  destruct state as [made nodes]. destruct segment as [node_1 node_2].
  intros [_ Hparts]. unfold Map.add_segment. cbv zeta. cbn [fst snd] in *.
  rewrite total_parts_add.
  - rewrite total_parts_add.
    + rewrite !total_parts_init. reflexivity.
    + apply contains_nodes_init_mono, contains_nodes_init.
    + rewrite !parts_at_nodes_init. simpl. apply (Hparts node_1).
  - apply contains_nodes_add_mono, contains_nodes_init.
  - rewrite parts_at_nodes_add
      by (apply contains_nodes_init_mono, contains_nodes_init).
    rewrite !parts_at_nodes_init. simpl.
    destruct (Hparts node_2) as [_ [Hids _]].
    assert (Hids' : Forall (fun p => RoadPart_id p < S made)
                           (parts_at node_2 nodes))
      by (eapply Forall_impl; [|exact Hids]; simpl; intros; lia).
    destruct (OSMNode_eq_dec node_1 node_2); [|exact Hids'].
    apply set_add_Forall; [simpl; lia | exact Hids'].
Qed.

Lemma add_road_total (self : Map) (road : Road)
      (state : nat * list (OSMNode * list RoadPart))
      (segments : list (OSMNode * OSMNode)) :
  nodes_invariant state segments ->
  total_parts (snd (Map.add_road self state road))
  = total_parts (snd state) + 2 * List.length (Map.road_segments road).
Proof.
  unfold Map.add_road. generalize (Map.road_segments road) as todo.
  intro todo. revert state segments.
  induction todo as [|segment todo IH]; intros state segments H; simpl.
  - lia.
  - rewrite (IH _ (segments ++ [segment]))
      by (apply add_segment_invariant; exact H).
    rewrite (add_segment_total self (Road_lanes road) segment H). lia.
Qed.

(** X7: every road segment adds exactly two half-edges, one at each of its ends:
    the sets of the [nodes] dictionary hold, together, twice as many parts as
    the roads have segments, and a road of n nodes has n - 1 segments. *)
Theorem two_half_edges_per_segment (self : Map) (roads : list Road) :
  total_parts (Map.collect_nodes self roads)
  = 2 * list_sum (map (fun road => List.length (Road_nodes road) - 1) roads).
Proof.
  unfold Map.collect_nodes.
  assert (H : forall state segments,
             nodes_invariant state segments ->
             total_parts (snd (fold_left (Map.add_road self) roads state))
             = total_parts (snd state)
               + 2 * list_sum
                       (map (fun road => List.length (Road_nodes road) - 1)
                            roads)).
  { induction roads as [|road roads IH]; intros state segments H; simpl.
    - lia.
    - rewrite (IH _ (segments ++ Map.road_segments road))
        by (apply add_road_invariant; exact H).
      rewrite (add_road_total self road H), road_segments_length. lia. }
  rewrite (H (0, []) []).
  - reflexivity.
  - split; [constructor|]. intro node. split; [reflexivity|].
    split; constructor.
Qed.

(** ** The credits *)

Lemma texts_drawn_app (l1 l2 : list Call) :
  texts_drawn (l1 ++ l2) = texts_drawn l1 ++ texts_drawn l2.
Proof.
  apply flat_map_app.
Qed.

Lemma texts_drawn_layered (k : nat) (calls : list Call) :
  layered k calls -> k <> 12 -> texts_drawn calls = [].
Proof.
  intros H Hk. induction H as [|call calls Hcall _ IH]; [reflexivity|].
  simpl. rewrite IH. destruct call; try reflexivity.
  simpl in Hcall. congruence.
Qed.

Lemma texts_drawn_map {A : Type} (k : nat) (f : A -> Call) (l : list A) :
  (forall a, code_layer (f a) = k) -> k <> 12 -> texts_drawn (map f l) = [].
Proof.
  intros H Hk. apply (texts_drawn_layered (k := k)); [|exact Hk].
  apply layered_map. exact H.
Qed.

(** X8: the only texts [Map.draw] writes itself are the credits, and they depend
    on the size of the flinger of the constructor, not on that of the map:
    the line of the project 15 units from the right and from the bottom, and,
    only when the configured credit is not empty, the line of the data 12
    units higher; each line first with a white outline, then without. *)
Theorem credits_are_the_only_texts (I : Imports)
        (Segment_lt : Segment -> Segment -> bool) (self : Map)
        (constructor : Constructor) :
  let size := Flinger_size (Constructor_flinger constructor) in
  let lines :=
    (("Rendering: " ++ project I)%string,
     ((fst size - 15)%Q, (snd size - 15)%Q))
    :: match MapConfiguration_credit (Map_configuration self) with
       | None => []
       | Some credit =>
           if String.eqb credit "" then []
           else [(("Data: " ++ credit)%string,
                  ((fst size - 15)%Q, (snd size - 27)%Q))]
       end in
  texts_drawn (Map.draw I Segment_lt self constructor)
  = flat_map (fun '(text, point) =>
                [(text, point, Some "#FFFFFF"%string); (text, point, None)])
             lines.
Proof.
  cbv zeta. rewrite draw_unfold. rewrite !texts_drawn_app.
  rewrite (texts_drawn_layered (draw_figures_below_layered self _)) by lia.
  rewrite (texts_drawn_layered (draw_figures_above_layered self _)) by lia.
  rewrite (texts_drawn_layered
             (draw_buildings_layered I Segment_lt self constructor)) by lia.
  rewrite (texts_drawn_layered (draw_texts_layered self _ _)) by lia.
  rewrite (texts_drawn_map (k := 5) Tree_draw) by (reflexivity || lia).
  rewrite (texts_drawn_map (k := 6) Crater_draw) by (reflexivity || lia).
  rewrite (texts_drawn_map (k := 8) DirectionSector_draw)
    by (reflexivity || lia).
  rewrite (texts_drawn_map (k := 9)
             (fun node => Point_draw_main_shapes node _))
    by (reflexivity || lia).
  rewrite (texts_drawn_map (k := 10)
             (fun point => Point_draw_extra_shapes point _))
    by (reflexivity || lia).
  cbn [texts_drawn flat_map app].
  unfold Map.draw_credits, Map.credit_list. cbv zeta.
  destruct (MapConfiguration_credit (Map_configuration self)) as [credit|];
    [destruct (String.eqb credit "")|]; reflexivity.
Qed.

(** ** A map of nothing *)

(** X9: when the constructor has found no figure, tree, crater, building,
    direction sector or point, [Map.draw] still paints the background, calls
    [Roads.draw], adds the empty group of the building shades unless the
    buildings are off or flat, and writes the credits; the heights recorded
    by the constructor change nothing. *)
Theorem draw_nothing_but_roads (I : Imports)
        (Segment_lt : Segment -> Segment -> bool) (self : Map)
        (roads : Roads) (heights : list Q) (flinger : Flinger) :
  Map.draw I Segment_lt self (nothing_but_roads roads heights flinger)
  = [svg_add_Rect (0%Q, 0%Q) (Flinger_size (Map_flinger self))
                  (Map_background_color self);
     Roads_draw roads]
    ++ (if is_extruded
             (MapConfiguration_building_mode (Map_configuration self))
        then [svg_add_shade []] else [])
    ++ Map.draw_credits I self (Flinger_size flinger).
Proof.
  rewrite draw_unfold. unfold Map.draw_buildings. cbn [nothing_but_roads
    Constructor_buildings Constructor_figures Constructor_trees
    Constructor_craters Constructor_direction_sectors Constructor_points
    Constructor_roads Constructor_heights Constructor_flinger].
  destruct (MapConfiguration_building_mode (Map_configuration self));
    try reflexivity.
  cbn [is_extruded]. cbv zeta. rewrite draw_slices_no_buildings. reflexivity.
Qed.

(** ** The coordinates given on the command line *)

Lemma str_split_not_nil (delimiter : ascii) (text : string) :
  str_split delimiter text <> [].
Proof.
  destruct text as [|c rest]; simpl; [discriminate|].
  destruct (Ascii.eqb c delimiter); [discriminate|].
  destruct (str_split delimiter rest); discriminate.
Qed.

Lemma str_split_no_delimiter (delimiter : ascii) (text : string) :
  str_contains delimiter text = false -> str_split delimiter text = [text].
Proof.
  induction text as [|c rest IH]; simpl; intro H; [reflexivity|].
  apply orb_false_iff in H. destruct H as [Hc Hrest].
  rewrite Hc, (IH Hrest). reflexivity.
Qed.

Lemma str_split_app (delimiter : ascii) (a b : string) :
  str_contains delimiter a = false ->
  str_split delimiter (a ++ String delimiter b)
  = a :: str_split delimiter b.
Proof.
  induction a as [|c a IH]; simpl; intro H.
  - rewrite Ascii.eqb_refl. reflexivity.
  - apply orb_false_iff in H. destruct H as [Hc Ha].
    rewrite Hc, (IH Ha). reflexivity.
Qed.

(** The first piece holds no delimiter; the text is the first piece, or the
    first piece, a delimiter, and a text that splits into the other
    pieces. *)
Lemma str_split_cons (delimiter : ascii) (text piece : string)
      (pieces : list string) :
  str_split delimiter text = piece :: pieces ->
  str_contains delimiter piece = false
  /\ match pieces with
     | [] => text = piece
     | _ => exists rest,
         text = (piece ++ String delimiter rest)%string
         /\ str_split delimiter rest = pieces
     end.
Proof.
  revert piece pieces.
  induction text as [|c text IH]; simpl; intros piece pieces H.
  - injection H as <- <-. split; reflexivity.
  - destruct (Ascii.eqb c delimiter) eqn:Hc.
    + injection H as <- <-. split; [reflexivity|].
      apply Ascii.eqb_eq in Hc. subst c.
      pose proof (str_split_not_nil delimiter text) as Hnil.
      destruct (str_split delimiter text) eqn:Hsplit; [congruence|].
      exists text. split; [reflexivity | exact Hsplit].
    + destruct (str_split delimiter text) as [|first others] eqn:Hsplit.
      * exfalso. exact (str_split_not_nil delimiter text Hsplit).
      * injection H as <- <-.
        destruct (IH first others eq_refl) as [Hfirst Hothers].
        split; [simpl; rewrite Hc, Hfirst; reflexivity|].
        destruct others as [|other others].
        -- rewrite Hothers. reflexivity.
        -- destruct Hothers as [rest [Htext Hrest]].
           exists rest. split; [rewrite Htext; reflexivity | exact Hrest].
Qed.

Lemma str_split_two (delimiter : ascii) (text a b : string) :
  str_split delimiter text = [a; b]
  <-> text = (a ++ String delimiter b)%string
      /\ str_contains delimiter a = false
      /\ str_contains delimiter b = false.
Proof.
  split.
  - intro H. apply str_split_cons in H. destruct H as [Ha [rest [Ht Hrest]]].
    apply str_split_cons in Hrest. destruct Hrest as [Hb Hrest].
    subst rest. auto.
  - intros [Ht [Ha Hb]]. subst text.
    rewrite (@str_split_app delimiter a b Ha),
      (@str_split_no_delimiter delimiter b Hb).
    reflexivity.
Qed.

Lemma str_contains_split (delimiter : ascii) (text : string) :
  str_contains delimiter text = true ->
  exists first second others,
    str_split delimiter text = first :: second :: others.
Proof.
  intro H. destruct (str_split delimiter text) as [|first pieces] eqn:Hs.
  - exfalso. exact (str_split_not_nil delimiter text Hs).
  - destruct pieces as [|second others]; [|eauto].
    apply str_split_cons in Hs. destruct Hs as [Hfirst Htext].
    subst text. congruence.
Qed.

(** A character that is not the delimiter stays in some piece. *)
Lemma str_split_keeps (delimiter other : ascii) (text : string) :
  other <> delimiter ->
  str_contains other text = true ->
  Exists (fun piece => str_contains other piece = true)
         (str_split delimiter text).
Proof.
  intro Hother. induction text as [|c text IH]; simpl; intro H;
    [discriminate|].
  destruct (Ascii.eqb c delimiter) eqn:Hc.
  - apply Ascii.eqb_eq in Hc. subst c.
    destruct (Ascii.eqb delimiter other) eqn:Hd.
    + apply Ascii.eqb_eq in Hd. congruence.
    + apply Exists_cons_tl. apply IH. exact H.
  - pose proof (str_split_not_nil delimiter text) as Hnil.
    destruct (str_split delimiter text) as [|first others]; [congruence|].
    destruct (Ascii.eqb c other) eqn:Hco.
    + apply Exists_cons_hd. simpl. rewrite Hco. reflexivity.
    + specialize (IH H). inversion IH as [? ? Hfirst|? ? Hothers]; subst.
      * apply Exists_cons_hd. simpl. rewrite Hfirst. apply orb_true_r.
      * apply Exists_cons_tl. exact Hothers.
Qed.

Section CommandLineFacts.

Variable float : string -> option Q.

Lemma floats_two (a b : string) (numbers : list Q) :
  floats float [a; b] = Some numbers
  <-> exists x y, numbers = [x; y] /\ float a = Some x /\ float b = Some y.
Proof.
  simpl. destruct (float a) as [x|]; [destruct (float b) as [y|]|].
  - split.
    + intro H. injection H as <-. eauto.
    + intros [x' [y' [-> [Hx Hy]]]]. congruence.
  - split; [discriminate | intros [x' [y' [_ [_ Hy]]]]; discriminate].
  - split; [discriminate | intros [x' [y' [_ [Hx _]]]]; discriminate].
Qed.

Lemma floats_length (pieces : list string) (numbers : list Q) :
  floats float pieces = Some numbers ->
  List.length numbers = List.length pieces.
Proof.
  revert numbers. induction pieces as [|piece pieces IH]; simpl;
    intros numbers H.
  - injection H as <-. reflexivity.
  - destruct (float piece); [|discriminate].
    destruct (floats float pieces) as [rest|]; [|discriminate].
    injection H as <-. simpl. rewrite (IH rest eq_refl). reflexivity.
Qed.

Lemma floats_Exists_None (pieces : list string) :
  Exists (fun piece => float piece = None) pieces ->
  floats float pieces = None.
Proof.
  induction 1 as [piece pieces H|piece pieces _ IH]; simpl.
  - rewrite H. reflexivity.
  - rewrite IH. destruct (float piece); reflexivity.
Qed.

(** The pieces of the text at the delimiter are two numbers. *)
Lemma two_numbers (delimiter : ascii) (text : string) (x y : Q) :
  (exists numbers,
      floats float (str_split delimiter text) = Some numbers
      /\ numbers = [x; y])
  <-> exists a b,
      text = (a ++ String delimiter b)%string
      /\ str_contains delimiter a = false
      /\ str_contains delimiter b = false
      /\ float a = Some x /\ float b = Some y.
Proof.
  split.
  - intros [numbers [Hfloats ->]].
    pose proof (floats_length _ Hfloats) as Hlen.
    destruct (str_split delimiter text) as [|a [|b [|c rest]]] eqn:Hsplit;
      try discriminate.
    apply str_split_two in Hsplit. destruct Hsplit as [Ht [Ha Hb]].
    apply floats_two in Hfloats.
    destruct Hfloats as [x' [y' [E [Hx Hy]]]]. injection E as <- <-.
    exists a, b. auto.
  - intros [a [b [Ht [Ha [Hb [Hx Hy]]]]]]. exists [x; y]. split; [|reflexivity].
    rewrite (proj2 (str_split_two delimiter text a b)) by auto.
    apply floats_two. eauto.
Qed.

Lemma str_contains_app (delimiter : ascii) (a b : string) :
  str_contains delimiter (a ++ String delimiter b) = true.
Proof.
  induction a as [|c a IH]; simpl.
  - rewrite Ascii.eqb_refl. reflexivity.
  - rewrite IH. apply orb_true_r.
Qed.

Lemma accepted (delimiter : ascii) (text message : string)
      (numbers : list Q) (x y : Q) :
  floats float (str_split delimiter text) = Some numbers ->
  (if List.length numbers =? 2 then Return numbers
   else SystemExit message) = Return [x; y]
  <-> exists a b,
      text = (a ++ String delimiter b)%string
      /\ str_contains delimiter a = false
      /\ str_contains delimiter b = false
      /\ float a = Some x /\ float b = Some y.
Proof.
  intro Hfloats. rewrite <- two_numbers. split.
  - intro H. destruct (List.length numbers =? 2); [|discriminate H].
    injection H as ->. exists [x; y]. split; [exact Hfloats | reflexivity].
  - intros [numbers' [Hfloats' ->]].
    rewrite Hfloats in Hfloats'. injection Hfloats' as ->. reflexivity.
Qed.

Lemma rejected (delimiter : ascii) (text : string) (x y : Q) :
  floats float (str_split delimiter text) = None ->
  ~ exists a b,
      text = (a ++ String delimiter b)%string
      /\ str_contains delimiter a = false
      /\ str_contains delimiter b = false
      /\ float a = Some x /\ float b = Some y.
Proof.
  intros Hfloats H. apply two_numbers in H.
  destruct H as [numbers [Hsome _]]. congruence.
Qed.

(** X10: the text of [--coordinates] gives the coordinates (x, y) exactly
    when it is two numbers x and y with one delimiter between them, a comma or a
    slash, and no other comma or slash; or when it is two numbers with a
    slash between them and with commas that split it into numbers as
    well. *)
Theorem coordinates_accepted (text : string) (x y : Q) :
  parse_coordinates float text = Return [x; y]
  <-> exists (delimiter : ascii) (a b : string),
      text = (a ++ String delimiter b)%string
      /\ str_contains delimiter a = false
      /\ str_contains delimiter b = false
      /\ float a = Some x /\ float b = Some y
      /\ ((delimiter = ","%char /\ str_contains "/" text = false)
          \/ (delimiter = "/"%char
              /\ (str_contains "," text = true ->
                  floats float (str_split "," text) <> None))).
Proof.
  unfold parse_coordinates, fatal. cbn [fold_left].
  unfold read_coordinates.
  assert (Hin : forall delimiter a b,
             text = (a ++ String delimiter b)%string ->
             str_contains delimiter text = true)
    by (intros delimiter a b ->; apply str_contains_app).
  destruct (str_contains "," text) eqn:Hcomma;
    destruct (str_contains "/" text) eqn:Hslash;
    [destruct (floats float (str_split "," text)) as [by_comma|] eqn:Hc;
     [destruct (floats float (str_split "/" text)) as [numbers|] eqn:Hs|]
    |destruct (floats float (str_split "," text)) as [numbers|] eqn:Hc
    |destruct (floats float (str_split "/" text)) as [numbers|] eqn:Hs
    |]; cbv beta iota.
  - (* a comma and a slash, numbers between both *)
    rewrite (@accepted "/" text _ numbers x y Hs). split.
    + intros [a [b H]]. exists "/"%char, a, b.
      repeat (split; [tauto|]). right. split; [reflexivity | congruence].
    + intros [delimiter [a [b [Ht [Ha [Hb [Hx [Hy Hd]]]]]]]].
      destruct Hd as [[_ Hno]|[-> _]]; [discriminate Hno|]. eauto 10.
  - split; [intro H; discriminate H|].
    intros [delimiter [a [b [Ht [Ha [Hb [Hx [Hy Hd]]]]]]]].
    destruct Hd as [[_ Hno]|[-> _]]; [discriminate Hno|].
    exfalso. apply (@rejected "/" text x y Hs). eauto 10.
  - split; [intro H; discriminate H|].
    intros [delimiter [a [b [Ht [Ha [Hb [Hx [Hy Hd]]]]]]]].
    destruct Hd as [[_ Hno]|[_ Hok]]; [discriminate Hno|].
    exfalso. apply Hok; reflexivity.
  - (* commas only *)
    rewrite (@accepted "," text _ numbers x y Hc). split.
    + intros [a [b H]]. exists ","%char, a, b.
      repeat (split; [tauto|]). left. split; reflexivity.
    + intros [delimiter [a [b [Ht [Ha [Hb [Hx [Hy Hd]]]]]]]].
      destruct Hd as [[-> _]|[-> _]]; [eauto 10|].
      apply Hin in Ht. congruence.
  - split; [intro H; discriminate H|].
    intros [delimiter [a [b [Ht [Ha [Hb [Hx [Hy Hd]]]]]]]].
    destruct Hd as [[-> _]|[-> _]].
    + exfalso. apply (@rejected "," text x y Hc). eauto 10.
    + apply Hin in Ht. congruence.
  - (* slashes only *)
    rewrite (@accepted "/" text _ numbers x y Hs). split.
    + intros [a [b H]]. exists "/"%char, a, b.
      repeat (split; [tauto|]). right. split; [reflexivity | discriminate].
    + intros [delimiter [a [b [Ht [Ha [Hb [Hx [Hy Hd]]]]]]]].
      destruct Hd as [[-> _]|[-> _]]; [|eauto 10].
      apply Hin in Ht. congruence.
  - split; [intro H; discriminate H|].
    intros [delimiter [a [b [Ht [Ha [Hb [Hx [Hy Hd]]]]]]]].
    destruct Hd as [[-> _]|[-> _]].
    + apply Hin in Ht. congruence.
    + exfalso. apply (@rejected "/" text x y Hs). eauto 10.
  - (* no delimiter *)
    split; [intro H; discriminate H|].
    intros [delimiter [a [b [Ht [Ha [Hb [Hx [Hy Hd]]]]]]]].
    apply Hin in Ht. destruct Hd as [[-> _]|[-> _]]; congruence.
Qed.

(** X11: a text with a comma and a slash never gives coordinates nor the message
    of a wrong format: as no number is written with a slash, the pieces
    between the commas are not all numbers, and the [ValueError] of [float]
    ends the program. *)
Theorem mixed_delimiters_raise (text : string) :
  str_contains "," text = true ->
  str_contains "/" text = true ->
  (forall piece, str_contains "/" piece = true -> float piece = None) ->
  parse_coordinates float text = ValueError.
Proof.
  intros Hcomma Hslash Hfloat. unfold parse_coordinates.
  cbn [fold_left read_coordinates]. rewrite Hcomma.
  rewrite floats_Exists_None; [reflexivity|].
  eapply Exists_impl; [exact Hfloat|].
  apply (str_split_keeps (delimiter := ",") (other := "/") text);
    [discriminate | exact Hslash].
Qed.

(** X12: a text with no comma and no slash, a single number for one, ends the
    program with the message of a wrong format, and so does a text whose
    pieces are numbers, but one or more than two. *)
Theorem wrong_coordinates_fatal (text : string) (numbers : list Q) :
  (str_contains "," text = false /\ str_contains "/" text = false)
  \/ (str_contains "," text = true /\ str_contains "/" text = false
      /\ floats float (str_split "," text) = Some numbers
      /\ List.length numbers <> 2)
  \/ (str_contains "," text = false /\ str_contains "/" text = true
      /\ floats float (str_split "/" text) = Some numbers
      /\ List.length numbers <> 2) ->
  parse_coordinates float text = SystemExit "Wrong coordinates format.".
Proof.
  unfold parse_coordinates, fatal. cbn [fold_left].
  unfold read_coordinates.
  intros [[-> ->]|[[-> [-> [-> Hlen]]]|[-> [-> [-> Hlen]]]]];
    try reflexivity;
    apply Nat.eqb_neq in Hlen; rewrite Hlen; reflexivity.
Qed.

End CommandLineFacts.

Lemma Sample_digits_slash (piece : string) (value : Z) :
  str_contains "/" piece = true -> Sample.digits piece value = None.
Proof.
  revert value. induction piece as [|c piece IH]; simpl; intros value H;
    [discriminate|].
  destruct (Ascii.eqb c "/") eqn:Hc.
  - apply Ascii.eqb_eq in Hc. subst c. reflexivity.
  - simpl in H. destruct (_ && _)%bool; [apply IH; exact H | reflexivity].
Qed.

Lemma Sample_float_slash (piece : string) :
  str_contains "/" piece = true -> Sample.float piece = None.
Proof.
  intro H. unfold Sample.float. destruct piece; [reflexivity|].
  rewrite Sample_digits_slash by exact H. reflexivity.
Qed.

Lemma mixed_delimiters_raise_witness :
  str_contains "," "55,37/12" = true
  /\ str_contains "/" "55,37/12" = true
  /\ parse_coordinates Sample.float "55,37/12" = ValueError.
Proof.
  split; [reflexivity|]. split; [reflexivity|].
  apply (mixed_delimiters_raise Sample.float "55,37/12");
    [reflexivity | reflexivity | exact Sample_float_slash].
Defined.

Lemma wrong_coordinates_fatal_witness :
  parse_coordinates Sample.float "55,37,12"
  = SystemExit "Wrong coordinates format.".
Proof.
  apply (@wrong_coordinates_fatal Sample.float "55,37,12"
            [55%Q; 37%Q; 12%Q]).
  right. left. repeat split; try reflexivity. simpl. lia.
Defined.

(** ** The grid of the test images *)

Section TestElements.

Import test_elements.

Lemma max_l (a b : Q) : (a <= max a b)%Q.
Proof.
  unfold max. destruct (Qltb a b) eqn:H.
  - apply Qltb_lt in H. apply Qlt_le_weak. exact H.
  - apply Qle_refl.
Qed.

Lemma max_r (a b : Q) : (b <= max a b)%Q.
Proof.
  unfold max. destruct (Qltb a b) eqn:H.
  - apply Qle_refl.
  - apply Qltb_ge in H. exact H.
Qed.

Lemma fold_left_range_invariant {A : Type} (step : A -> Z -> A)
      (P : nat -> A -> Prop) (n : nat) (state : A) :
  P 0 state ->
  (forall j state, j < n -> P j state -> P (S j) (step state (Z.of_nat j))) ->
  P n (fold_left step (range n) state).
Proof.
  unfold range.
  assert (H : forall k start state,
             start + k = n ->
             P start state ->
             (forall j state,
                 j < n -> P j state -> P (S j) (step state (Z.of_nat j))) ->
             P n (fold_left step (map Z.of_nat (seq start k)) state)).
  { induction k as [|k IH]; intros start state' Hn Hstart Hstep; simpl.
    - replace n with start by lia. exact Hstart.
    - apply (IH (S start)); [lia | apply Hstep; [lia | exact Hstart]
                            | exact Hstep]. }
  intros H0 Hstep. apply (H n 0 state); [reflexivity | exact H0 | exact Hstep].
Qed.

Lemma fold_left_enumerate_invariant {A B : Type} (step : A -> Z * B -> A)
      (P : nat -> A -> Prop) (l : list B) (state : A) :
  P 0 state ->
  (forall i x state,
      nth_error l i = Some x ->
      P i state -> P (S i) (step state (Z.of_nat i, x))) ->
  P (List.length l) (fold_left step (enumerate l) state).
Proof.
  unfold enumerate, range.
  assert (H : forall rest start state,
             P start state ->
             (forall i x state,
                 nth_error rest i = Some x ->
                 P (start + i) state ->
                 P (S (start + i)) (step state (Z.of_nat (start + i), x))) ->
             P (start + List.length rest)
               (fold_left step
                  (combine (map Z.of_nat (seq start (List.length rest)))
                           rest)
                  state)).
  { induction rest as [|x rest IH]; intros start state' Hstart Hstep; simpl.
    - rewrite Nat.add_0_r. exact Hstart.
    - rewrite <- Nat.add_succ_comm. apply IH.
      + specialize (Hstep 0 x state' eq_refl).
        rewrite Nat.add_0_r in Hstep. apply Hstep. exact Hstart.
      + intros i y state'' Hy Hi. rewrite Nat.add_succ_comm in *.
        apply (Hstep (S i)); [exact Hy | exact Hi]. }
  intros H0 Hstep. apply (H l 0 state H0). exact Hstep.
Qed.

Lemma firstn_succ {A : Type} (l : list A) (i : nat) (x : A) :
  nth_error l i = Some x -> firstn (S i) l = firstn i l ++ [x].
Proof.
  revert i. induction l as [|y l IH]; intros [|i] H; simpl in *;
    try discriminate.
  - injection H as ->. reflexivity.
  - rewrite <- (IH i H). reflexivity.
Qed.

Lemma StronglySorted_snoc (l : list Z) (x : Z) :
  StronglySorted Z.lt l -> Forall (fun y => (y < x)%Z) l ->
  StronglySorted Z.lt (l ++ [x]).
Proof.
  intros Hsorted Hall. induction Hsorted as [|y l Hl IH Hy]; simpl.
  - repeat constructor.
  - inversion Hall as [|? ? Hyx Hrest]; subst. constructor; [apply IH, Hrest|].
    apply Forall_app. split; [exact Hy | repeat constructor; exact Hyx].
Qed.

Lemma within_grows (grid grid' : Grid) (node : OSMNode) :
  (Grid_max_i grid <= Grid_max_i grid')%Q ->
  (Grid_max_j grid <= Grid_max_j grid')%Q ->
  within grid node -> within grid' node.
Proof.
  unfold within. cbv zeta. intros Hi Hj [H1 [H2 [H3 H4]]].
  repeat split; lra.
Qed.

(** [add_node], for a row and a column that are not negative. *)
Lemma add_node_invariant (grid : Grid) (tags : Tags) (i j : nat) :
  grid_invariant grid ->
  let node := fst (Grid.add_node grid tags (Z.of_nat i) (Z.of_nat j)) in
  let grid' := snd (Grid.add_node grid tags (Z.of_nat i) (Z.of_nat j)) in
  grid_invariant grid'
  /\ Grid_index grid' = (Grid_index grid + 1)%Z
  /\ OSMNode_id node = (Grid_index grid + 1)%Z
  /\ (fst (OSMNode_coordinates node)
      == inject_Z (- Z.of_nat i) * 0.0003)%Q
  /\ (snd (OSMNode_coordinates node) == inject_Z (Z.of_nat j) * 0.0002)%Q
  /\ within grid' node
  /\ (forall other, within grid other -> within grid' other).
Proof.
  intros [Hx [Hy Hkeys]]. cbv zeta. unfold Grid.add_node. cbn [fst snd].
  set (node := Build_OSMNode _ _ _).
  set (grid' := Build_Grid _ _ _ _ _ _ _).
  assert (Hi : (0 <= inject_Z (Z.of_nat i))%Q)
    by (change (inject_Z 0 <= inject_Z (Z.of_nat i))%Q;
        rewrite <- Zle_Qle; lia).
  assert (Hj : (0 <= inject_Z (Z.of_nat j))%Q)
    by (change (inject_Z 0 <= inject_Z (Z.of_nat j))%Q;
        rewrite <- Zle_Qle; lia).
  assert (Hopp : (inject_Z (- Z.of_nat i) == - inject_Z (Z.of_nat i))%Q)
    by (rewrite inject_Z_opp; reflexivity).
  assert (Hgrow : forall other, within grid other -> within grid' other).
  { intros other. apply within_grows; subst grid'; cbn; apply max_l. }
  assert (Hlat : (fst (OSMNode_coordinates node)
                  == inject_Z (- Z.of_nat i) * 0.0003)%Q).
  { subst node. cbn. rewrite Hy. reflexivity. }
  assert (Hlon : (snd (OSMNode_coordinates node)
                  == inject_Z (Z.of_nat j) * 0.0002)%Q).
  { subst node. cbn. rewrite Hx. reflexivity. }
  assert (Hnode : within grid' node).
  { unfold within. cbv zeta. rewrite Hlat, Hlon, Hopp.
    pose proof (max_r (Grid_max_i grid)
                      (inject_Z (Z.of_nat i) * Grid_y_step grid)%Q) as Mi.
    pose proof (max_r (Grid_max_j grid)
                      (inject_Z (Z.of_nat j) * Grid_x_step grid)%Q) as Mj.
    subst grid'. cbn [Grid_max_i Grid_max_j].
    rewrite Hy in *. rewrite Hx in *. repeat split; lra. }
  split; [|split; [reflexivity|]; split; [reflexivity|];
           split; [exact Hlat|]; split; [exact Hlon|];
           split; [exact Hnode | exact Hgrow]].
  split; [exact Hx|]. split; [exact Hy|].
  apply Forall_forall. intros key Hkey. subst grid'. cbn in Hkey.
  apply dict_set_keys_In in Hkey. destruct Hkey as [<-|Hkey].
  - exact Hnode.
  - apply Hgrow. rewrite Forall_forall in Hkeys. apply Hkeys. exact Hkey.
Qed.

Lemma within_strictly_inside (grid : Grid) (node : OSMNode) :
  grid_invariant grid -> within grid node ->
  strictly_inside (Grid.get_boundary_box grid) node.
Proof.
  intros [Hx [Hy _]] [H1 [H2 [H3 H4]]]. unfold strictly_inside. cbn.
  rewrite Hx, Hy. repeat split; lra.
Qed.

Lemma add_feature_invariant (type_ : Tags) (features base : list Tags)
      (i j : nat) (state : Grid * option OSMNode * list OSMWay) :
  j < List.length features + 1 ->
  row_invariant type_ features base i j state ->
  row_invariant type_ features base i (S j)
    (add_feature type_ features (Z.of_nat i) state (Z.of_nat j)).
Proof.
  destruct state as [[grid previous] ways].
  intros Hj [Hindex [Hgrid [[Hids [Hsorted [Hjoin Hwithin]]] [Hprev Htags]]]].
  pose proof (@add_node_invariant grid [] i j Hgrid) as H.
  cbv zeta in H. unfold add_feature.
  destruct (Grid.add_node grid [] (Z.of_nat i) (Z.of_nat j))
    as [node grid'].
  cbn [fst snd] in H.
  destruct H as [Hgrid' [Hindex' [Hid [Hlat [Hlon [Hnode Hgrow]]]]]].
  assert (Hnext : (inject_Z (Z.of_nat (S j)) * 0.0002 - 0.0002
                   == inject_Z (Z.of_nat j) * 0.0002)%Q).
  { rewrite Nat2Z.inj_succ. unfold Z.succ. rewrite inject_Z_plus.
    change (inject_Z 1) with 1%Q. ring. }
  assert (Hold : Forall (fun way => Forall (within grid') (OSMWay_nodes way))
                        ways).
  { eapply Forall_impl; [|exact Hwithin]. intros way Hway.
    eapply Forall_impl; [|exact Hway]. exact Hgrow. }
  assert (Holdids : Forall (fun way => (OSMWay_id way < Grid_index grid')%Z)
                           ways).
  { eapply Forall_impl; [|exact Hids]. cbv beta. intros way Hway. lia. }
  unfold row_invariant.
  split; [rewrite Hindex', Hindex; lia|]. split; [exact Hgrid'|].
  destruct previous as [previous|].
  - destruct Hprev as [Hpos [Hpid [Hplat [Hplon Hpwithin]]]].
    split; [|split].
    + (* the ways *)
      split; [|split; [|split]].
      * apply Forall_app. split; [exact Holdids|].
        constructor; [|constructor]. cbn. lia.
      * rewrite map_app. apply StronglySorted_snoc; [exact Hsorted|].
        rewrite Forall_map. eapply Forall_impl; [|exact Hids].
        cbn. intros way Hway. lia.
      * apply Forall_app. split; [exact Hjoin|].
        constructor; [|constructor].
        exists previous, node. cbn.
        split; [reflexivity|]. split; [lia|]. split; [lia|].
        split; [rewrite Hlat, Hplat; reflexivity|].
        rewrite Hlon, Hplon. lra.
      * apply Forall_app. split; [exact Hold|].
        constructor; [|constructor]. cbn [OSMWay_nodes].
        constructor; [apply Hgrow; exact Hpwithin|].
        constructor; [exact Hnode | constructor].
    + (* the new previous *)
      split; [lia|]. split; [lia|]. split; [exact Hlat|].
      split; [rewrite Hnext; exact Hlon | exact Hnode].
    + (* the tags *)
      rewrite map_app, Htags, <- app_assoc. f_equal. cbn [map OSMWay_tags].
      replace (Z.to_nat (Z.of_nat j - 1)) with (j - 1) by lia.
      replace (S j - 1) with (S (j - 1)) by lia.
      rewrite (@firstn_succ _ features (j - 1)
                            (nth (j - 1) features [])).
      * rewrite map_app. reflexivity.
      * apply nth_error_nth'. lia.
  - subst j. split; [|split].
    + split; [exact Holdids|]. split; [exact Hsorted|].
      split; [exact Hjoin | exact Hold].
    + split; [lia|]. split; [lia|]. split; [exact Hlat|].
      split; [rewrite Hnext; exact Hlon | exact Hnode].
    + exact Htags.
Qed.

Lemma add_type_invariant (types features : list Tags) (i : nat)
      (type_ : Tags) (state : Grid * list OSMWay) :
  nth_error types i = Some type_ ->
  rows_invariant types features i state ->
  rows_invariant types features (S i)
    (add_type features state (Z.of_nat i, type_)).
Proof.
  destruct state as [grid ways]. intros Htype [Hindex [Hgrid [Hways Htags]]].
  unfold add_type.
  pose proof
    (fold_left_range_invariant
       (add_feature type_ features (Z.of_nat i))
       (row_invariant type_ features
          (flat_map (fun type_ => map (update type_) features)
                    (firstn i types)) i)
       (n := List.length features + 1) (grid, None, ways)) as H.
  destruct (fold_left (add_feature type_ features (Z.of_nat i))
                      (range (List.length features + 1)) (grid, None, ways))
    as [[grid' previous'] ways'].
  destruct H as [Hindex' [Hgrid' [Hways' [_ Htags']]]].
  - unfold row_invariant. split; [lia|]. split; [exact Hgrid|].
    split; [exact Hways|]. split; [reflexivity|].
    cbn. rewrite app_nil_r. exact Htags.
  - intros j state Hj. apply add_feature_invariant. exact Hj.
  - unfold rows_invariant. split; [unfold len in *; lia|].
    split; [exact Hgrid'|]. split; [exact Hways'|].
    rewrite Htags'. rewrite (firstn_succ types i Htype), flat_map_app.
    cbn [flat_map]. rewrite app_nil_r. f_equal.
    rewrite Nat.add_sub, firstn_all. reflexivity.
Qed.

Lemma road_features_invariant (types features : list Tags) :
  rows_invariant types features (List.length types)
                 (road_features_loops types features).
Proof.
  unfold road_features_loops.
  apply (fold_left_enumerate_invariant (add_type features)
           (rows_invariant types features)).
  - unfold rows_invariant. split; [reflexivity|].
    split; [split; [reflexivity|]; split; [reflexivity | constructor]|].
    split; [|reflexivity].
    split; [constructor|]. split; [constructor|].
    split; constructor.
  - intros i type_ state. apply add_type_invariant.
Qed.

(** X13: [road_features] adds one way for every type and every feature, row by
    row and, in a row, feature by feature, with the tags of the type
    updated by those of the feature: as many ways as there are types times
    features. *)
Theorem road_features_one_way_per_feature (types features : list Tags) :
  let ways := fst (road_features types features) in
  map OSMWay_tags ways
  = flat_map (fun type_ => map (update type_) features) types
  /\ List.length ways = List.length types * List.length features.
Proof.
  cbv zeta. unfold road_features.
  pose proof (road_features_invariant types features) as H.
  destruct (road_features_loops types features) as [grid ways].
  destruct H as [_ [_ [_ Htags]]]. rewrite firstn_all in Htags.
  cbn [fst]. split; [exact Htags|].
  rewrite <- (length_map OSMWay_tags), Htags.
  clear. induction types as [|type_ types IH]; [reflexivity|].
  cbn [flat_map]. rewrite length_app, length_map, IH. reflexivity.
Qed.

(** X14: every way of [road_features] joins two neighbours of a row of the
    grid: two nodes on one latitude, the second at a greater longitude than
    the first, the first with the id of the way and the second with the next
    id.  The ids of the ways increase, so no two ways share an id. *)
Theorem road_features_ways_join_neighbours (types features : list Tags) :
  let ways := fst (road_features types features) in
  Forall joins_neighbours ways
  /\ StronglySorted Z.lt (map OSMWay_id ways).
Proof.
  cbv zeta. unfold road_features.
  pose proof (road_features_invariant types features) as H.
  destruct (road_features_loops types features) as [grid ways].
  destruct H as [_ [_ [[_ [Hsorted [Hjoin _]]] _]]].
  cbn [fst]. split; [exact Hjoin | exact Hsorted].
Qed.

(** X15: the boundary box that [road_features] hands to [draw] holds every node
    of the grid strictly inside, and so both nodes of every way. *)
Theorem road_features_box_holds_every_node (types features : list Tags) :
  let grid := fst (road_features_loops types features) in
  let ways := fst (road_features types features) in
  let box := snd (road_features types features) in
  Forall (strictly_inside box) (dict_keys (Grid_nodes grid))
  /\ Forall (fun way => Forall (strictly_inside box) (OSMWay_nodes way))
            ways.
Proof.
  cbv zeta. unfold road_features.
  pose proof (road_features_invariant types features) as H.
  destruct (road_features_loops types features) as [grid ways].
  destruct H as [_ [Hgrid [[_ [_ [_ Hwithin]]] _]]].
  cbn [fst snd]. split.
  - destruct Hgrid as [Hx [Hy Hkeys]].
    eapply Forall_impl; [|exact Hkeys].
    intros node. apply within_strictly_inside. split; [exact Hx|].
    split; [exact Hy | exact Hkeys].
  - eapply Forall_impl; [|exact Hwithin]. intros way Hway.
    eapply Forall_impl; [|exact Hway].
    intros node. apply within_strictly_inside. exact Hgrid.
Qed.

End TestElements.
